(** * job-monitor: a shallow embedding of [main.py] and its properties

    The pipeline of [main.py] is scrape -> normalise -> filter -> diff ->
    notify -> persist.  This file embeds the functions of that pipeline:

    - [scrape_job_listings]                             (HTML collector)
    - [call_job_listing_api], [process_api_response]   (API collector, normaliser)
    - [filter_jobs]                                     (filter)
    - [identify_new_jobs]                               (diff engine)
    - [load_jobs], [save_jobs]                          (persistence)
    - [send_email_notification]                         (notifier)

    and the script body that composes them: [main] runs on the configuration
    that [load_yaml] returned, and [settle] is its end, from reading the
    store to writing it.  [load_yaml] itself is a call into the YAML library
    and is not embedded.

    Modelling conventions.

    - Values that reach the program from outside (API payloads, the stored
      file, the job dictionaries built from them) are Python values, [pyval]:
      [None], booleans, integers, strings, lists and dictionaries with string
      keys, which is what [json.load] produces.  Floating-point numbers are
      outside the model.
    - Parameters that come from the configuration follow the annotations of
      the source: [keywords] and [locations] are lists of strings, [params] is
      a dictionary from strings to strings, [firm_name] and [filepath] are
      strings.
    - A Python exception is a [Raise] in the [result] monad; code with side
      effects runs in [IO], a state monad over a [world] that threads the
      exception outcome.  The world holds the environment variables, the
      files of one directory in which every name can be written, the answers
      of the network and of the mail server, and the trace of what was done.
    - The libraries are not part of the repository.  [str.lower], the
      [json] codec, [str()] formatting and the tags of a page parsed by
      [BeautifulSoup] are interfaces ([StrLower], [JsonCodec], [ValueFormat],
      [Soup]); the theorems hold for every implementation of them, and
      reference instances are given for running the examples. *)

From stdpp Require Import gmap strings list fin_maps pretty.


(* ================================================================= *)
(** ** Python values and exceptions *)

#[warnings="-register-all"]
Inductive pyval : Type :=
| PNone
| PBool (b : bool)
| PInt (z : Z)
| PStr (s : string)
| PList (l : list pyval)
| PDict (d : gmap string pyval).

(** The number of constructors of a value, the measure for induction on
    values. *)
Fixpoint pyval_size (v : pyval) : nat :=
  match v with
  | PList l => S (foldr (λ x n, pyval_size x + n) 0 l)
  | PDict d => S (map_fold (λ _ x n, pyval_size x + n) 0 d)
  | _ => 1
  end.

Inductive exn : Type :=
| KeyError (key : string)
| TypeError
| AttributeError
| FileNotFoundError
| JSONDecodeError
| RequestException
| SMTPException.

Inductive result (A : Type) : Type :=
| Ok (a : A)
| Raise (e : exn).
Arguments Ok {A} a.
Arguments Raise {A} e.

Global Instance result_ret : MRet result := λ A a, Ok a.
Global Instance result_bind : MBind result := λ A B f m,
  match m with
  | Ok a => f a
  | Raise e => Raise e
  end.

(** The interface of [str.lower]. *)
Class StrLower := str_lower : string → string.

Module Py.

(** [v[key]] for a string [key]. Only a dictionary can be subscripted by a
    string: a list or a string wants an integer index, and [None], booleans
    and integers are not subscriptable. *)
Definition getitem (v : pyval) (key : string) : result pyval :=
  match v with
  | PDict d =>
      match d !! key with
      | Some x => Ok x
      | None => Raise (KeyError key)
      end
  | _ => Raise TypeError
  end.

(** [d[key]] for a configuration dictionary [d : Dict[str, str]]. *)
Definition config (d : gmap string string) (key : string) : result string :=
  match d !! key with
  | Some x => Ok x
  | None => Raise (KeyError key)
  end.

(** [v.lower()]: only [str] has the method. *)
Definition lower `{StrLower} (v : pyval) : result string :=
  match v with
  | PStr s => Ok (str_lower s)
  | _ => Raise AttributeError
  end.

(** [for x in v]: the elements of a list, the keys of a dictionary, the
    one-character strings of a string; anything else is not iterable.  The
    keys come in the order of [map_to_list] rather than insertion order;
    every use below fails on the first key whichever it is. *)
Definition iter (v : pyval) : result (list pyval) :=
  match v with
  | PList l => Ok l
  | PDict d => Ok ((λ kv, PStr kv.1) <$> map_to_list d)
  | PStr s => Ok ((λ c, PStr (String c "")) <$> String.list_ascii_of_string s)
  | _ => Raise TypeError
  end.

(** [p in s] on strings. *)
Fixpoint starts_with (p s : string) : bool :=
  match p, s with
  | "", _ => true
  | String a p', String b s' => bool_decide (a = b) && starts_with p' s'
  | String _ _, "" => false
  end.

Fixpoint contains (needle hay : string) : bool :=
  starts_with needle hay ||
  match hay with
  | "" => false
  | String _ hay' => contains needle hay'
  end.

(** [any(f(x) for x in l)]: stops at the first true element, and an
    exception raised before that propagates. *)
Fixpoint any {A} (f : A → result bool) (l : list A) : result bool :=
  match l with
  | [] => Ok false
  | x :: l' => b ← f x; if b : bool then Ok true else any f l'
  end.

(** [[x for x in l if f(x)]]. *)
Fixpoint comprehension {A} (f : A → result bool) (l : list A) : result (list A) :=
  match l with
  | [] => Ok []
  | x :: l' =>
      b ← f x;
      rest ← comprehension f l';
      Ok (if b : bool then x :: rest else rest)
  end.

(** [a == b].  [bool] is a subclass of [int], so [True == 1]; two
    dictionaries are equal when they have the same number of keys and every
    key of the first is a key of the second with an equal value. *)
Fixpoint eqb (a b : pyval) {struct a} : bool :=
  match a, b with
  | PNone, PNone => true
  | PBool x, PBool y => bool_decide (x = y)
  | PInt x, PInt y => bool_decide (x = y)
  | PBool x, PInt y | PInt y, PBool x => bool_decide (y = if x then 1 else 0)%Z
  | PStr x, PStr y => bool_decide (x = y)
  | PList l1, PList l2 =>
      (fix go (l1 l2 : list pyval) : bool :=
         match l1, l2 with
         | [], [] => true
         | x :: l1', y :: l2' => eqb x y && go l1' l2'
         | _, _ => false
         end) l1 l2
  | PDict d1, PDict d2 =>
      bool_decide (size d1 = size d2) &&
      map_fold (λ k v acc,
                 acc && match d2 !! k with
                        | Some w => eqb v w
                        | None => false
                        end) true d1
  | _, _ => false
  end.

(** [x in l] for a list [l]. *)
Definition mem (x : pyval) (l : list pyval) : bool := existsb (eqb x) l.

End Py.

(* ================================================================= *)
(** ** The data model: job listings *)

Record JobListing : Type := {
  employer : string;
  title : string;
  location : string;
  link : string
}.

Global Instance JobListing_eq_dec : EqDecision JobListing.
Proof. solve_decision. Defined.

(** The dictionary that the collectors build for a listing. *)
Definition to_dict (j : JobListing) : pyval :=
  PDict {[ "firm" := PStr (employer j);
           "title" := PStr (title j);
           "location" := PStr (location j);
           "link" := PStr (link j) ]}.

(* ================================================================= *)
(** ** [filter_jobs] *)

Section filter.
Context `{StrLower}.

(** [keyword.lower() in job["title"].lower()] *)
Definition field_matches (job : pyval) (field : string) (word : string) : result bool :=
  let w := str_lower word in
  v ← Py.getitem job field;
  s ← Py.lower v;
  Ok (Py.contains w s).

(** The condition of the comprehension; [and] evaluates its right operand
    only when the left one is true. *)
Definition job_matches (keywords locations : list string) (job : pyval) : result bool :=
  kw ← Py.any (field_matches job "title") keywords;
  if kw : bool then Py.any (field_matches job "location") locations else Ok false.

Definition filter_jobs (jobs : list pyval) (keywords locations : list string)
  : result (list pyval) :=
  Py.comprehension (job_matches keywords locations) jobs.

End filter.

(* ================================================================= *)
(** ** [process_api_response] *)

(** The dictionary appended for one element of the payload.  The values of
    a dictionary display are evaluated left to right; in the conditional
    expression for ["link"], [params["link"]] is evaluated as the condition
    and again inside the subscript. *)
Definition normalise (firm_name : string) (params : gmap string string)
    (job : pyval) : result pyval :=
  title_key ← Py.config params "title";
  t ← Py.getitem job title_key;
  location_key ← Py.config params "location";
  l ← Py.getitem job location_key;
  link_cond ← Py.config params "link";
  k ← (if bool_decide (link_cond = "")
       then Ok (PStr "")
       else link_key ← Py.config params "link"; Py.getitem job link_key);
  Ok (PDict {[ "firm" := PStr firm_name;
               "title" := t;
               "location" := l;
               "link" := k ]}).

Definition process_api_response (data : pyval) (firm_name : string)
    (params : gmap string string) : result (list pyval) :=
  data ← match data with
         | PDict _ => key ← Py.config params "key"; Py.getitem data key
         | _ => Ok data
         end;
  items ← Py.iter data;
  mapM (normalise firm_name params) items.

(* ================================================================= *)
(** ** [identify_new_jobs] *)

Definition identify_new_jobs (jobs seen_jobs : list pyval) : list pyval :=
  List.filter (λ job, negb (Py.mem job seen_jobs)) jobs.

(* ================================================================= *)
(** ** The outside world *)

(** What [requests.get] returns. *)
Record response : Type := {
  status_code : Z;
  body : string
}.

(** The message built with [MIMEText]. *)
Record message : Type := {
  msg_body : string;
  msg_subject : string;
  msg_from : string;
  msg_to : string
}.

Inductive smtp_command : Type :=
| SmtpConnect (host port : string)
| SmtpStartTls
| SmtpLogin (user password : string)
| SmtpSendMessage (msg : message)
| SmtpQuit.

(** Every interaction with the outside is recorded. *)
Inductive event : Type :=
| EvEnviron (name : string)
| EvHttpGet (url : string) (headers : gmap string string)
| EvPrint (line : string)
| EvRead (path : string)
| EvWrite (path content : string)
| EvSmtp (c : smtp_command).

(** The environment variables, the files of the working directory, the
    network as a function from a request to its outcome, the mail server as
    the set of commands it accepts, and the interactions so far. *)
Record world : Type := {
  environ : gmap string string;
  files : gmap string string;
  network : string → gmap string string → result response;
  smtp_accepts : smtp_command → bool;
  trace : list event
}.

Definition IO (A : Type) : Type := world → result A * world.

Global Instance IO_ret : MRet IO := λ A a w, (Ok a, w).
Global Instance IO_bind : MBind IO := λ A B f m w,
  match m w with
  | (Ok a, w') => f a w'
  | (Raise e, w') => (Raise e, w')
  end.

Module Sys.

Definition raise {A} (e : exn) : IO A := λ w, (Raise e, w).

Definition lift {A} (r : result A) : IO A := λ w, (r, w).

Definition inspect {A} (f : world → result A) : IO A := λ w, (f w, w).

Definition update (f : world → world) : IO unit := λ w, (Ok (), f w).

Definition record (ev : event) : IO unit :=
  update (λ w, {| environ := environ w;
                  files := files w;
                  network := network w;
                  smtp_accepts := smtp_accepts w;
                  trace := trace w ++ [ev] |}).

(** [os.environ[name]] *)
Definition getenv (name : string) : IO string :=
  record (EvEnviron name);;
  inspect (λ w, match environ w !! name with
                | Some v => Ok v
                | None => Raise (KeyError name)
                end).

(** [requests.get(url, headers=headers)] *)
Definition http_get (url : string) (headers : gmap string string) : IO response :=
  record (EvHttpGet url headers);;
  inspect (λ w, network w url headers).

(** [print(line)] *)
Definition print (line : string) : IO unit := record (EvPrint line).

(** [open(path, "r")] followed by reading the whole file. *)
Definition read_file (path : string) : IO string :=
  record (EvRead path);;
  inspect (λ w, match files w !! path with
                | Some content => Ok content
                | None => Raise FileNotFoundError
                end).

(** [open(path, "w")] followed by writing [content]: the file is created or
    replaced. *)
Definition write_file (path content : string) : IO unit :=
  record (EvWrite path content);;
  update (λ w, {| environ := environ w;
                  files := <[path := content]> (files w);
                  network := network w;
                  smtp_accepts := smtp_accepts w;
                  trace := trace w |}).

(** One command of the SMTP session; a refused command raises. *)
Definition smtp (c : smtp_command) : IO unit :=
  record (EvSmtp c);;
  inspect (λ w, if smtp_accepts w c then Ok () else Raise SMTPException).

(** [try: m except e: handler] for the one exception [FileNotFoundError]. *)
Definition except_file_not_found {A} (m : IO A) (handler : IO A) : IO A := λ w,
  match m w with
  | (Raise FileNotFoundError, w') => handler w'
  | r => r
  end.

(** [with smtplib.SMTP(host, port) as server: block]: the connection is
    opened, the block runs, and leaving the block, with or without an
    exception, sends QUIT; a refused QUIT raises in place of the outcome of
    the block. *)
Definition finally_quit {A} (block : IO A) : IO A := λ w,
  match block w with
  | (r, w') =>
      match smtp SmtpQuit w' with
      | (Ok _, w'') => (r, w'')
      | (Raise e, w'') => (Raise e, w'')
      end
  end.

Definition with_smtp {A} (host port : string) (block : IO A) : IO A :=
  smtp (SmtpConnect host port);;
  finally_quit block.

End Sys.

(** A computation is [monotone] when it only adds to the trace. *)
Definition extends (w w' : world) : Prop :=
  ∃ evs, trace w' = trace w ++ evs.

Definition monotone {A} (m : IO A) : Prop :=
  ∀ w, extends w (m w).2.

(* ================================================================= *)
(** ** [call_job_listing_api] *)

(** The interface of the [json] module: the text of a value, and the value
    of a text when it is a JSON document. *)
Class JsonCodec := {
  json_dumps : pyval → string;
  json_loads : string → option pyval
}.

Definition json_value `{JsonCodec} (text : string) : result pyval :=
  match json_loads text with
  | Some v => Ok v
  | None => Raise JSONDecodeError
  end.

Section api.
Context `{JsonCodec}.

(** The function has no [return] on the [else] branch: it returns [None]. *)
Definition call_job_listing_api (url : string) (headers : gmap string string)
  : IO pyval :=
  response ← Sys.http_get url headers;
  if bool_decide (status_code response = 200%Z)
  then Sys.lift (json_value (body response))
  else
    Sys.print ("Failed to fetch data. HTTP Status Code: "
               +:+ pretty (status_code response));;
    mret PNone.

(* ================================================================= *)
(** ** [load_jobs] and [save_jobs] *)

Definition load_jobs (filepath : string) : IO pyval :=
  Sys.except_file_not_found
    (content ← Sys.read_file filepath; Sys.lift (json_value content))
    (mret (PList [])).

Definition save_jobs (jobs : list pyval) (filepath : string) : IO unit :=
  Sys.write_file filepath (json_dumps (PList jobs)).

End api.

(* ================================================================= *)
(** ** [send_email_notification] *)

(** The interface of [repr] for lists and dictionaries. *)
Class ValueFormat := container_repr : pyval → string.

Definition newline : string := String (Ascii.ascii_of_N 10) "".

Section notifier.
Context `{ValueFormat}.

(** What an f-string makes of [{v}]. *)
Definition format_value (v : pyval) : string :=
  match v with
  | PStr s => s
  | PNone => "None"
  | PBool true => "True"
  | PBool false => "False"
  | PInt z => pretty z
  | PList _ | PDict _ => container_repr v
  end.

(** [f"{job['firm']} - {job['title']} - {job['location']}\n{job['link']}"] *)
Definition format_job (job : pyval) : result string :=
  firm ← Py.getitem job "firm";
  t ← Py.getitem job "title";
  l ← Py.getitem job "location";
  k ← Py.getitem job "link";
  Ok (format_value firm +:+ " - " +:+ format_value t +:+ " - "
      +:+ format_value l +:+ newline +:+ format_value k).

Definition send_email_notification (jobs : list pyval) : IO unit :=
  match jobs with
  | [] => mret ()
  | _ :: _ =>
      sender ← Sys.getenv "MAIL_SENDER";
      recipient ← Sys.getenv "MAIL_RECIPIENT";
      lines ← Sys.lift (mapM format_job jobs);
      let msg := {| msg_body := String.concat newline lines;
                    msg_subject := "New MLE Job Openings";
                    msg_from := sender;
                    msg_to := recipient |} in
      host ← Sys.getenv "MAIL_HOST";
      port ← Sys.getenv "MAIL_PORT";
      Sys.with_smtp host port
        (Sys.smtp SmtpStartTls;;
         password ← Sys.getenv "MAIL_PASSWORD";
         Sys.smtp (SmtpLogin sender password);;
         Sys.smtp (SmtpSendMessage msg))
  end.

End notifier.

(* ================================================================= *)
(** ** The properties in the words of the specification *)

Section wording.
Context `{StrLower}.

(** [word] is a case-insensitive substring of [text]. *)
Definition ci_substring (word text : string) : Prop :=
  ∃ pre post, str_lower text = pre +:+ str_lower word +:+ post.

(** At least one keyword matches the title and at least one location string
    matches the location. *)
Definition wanted (keywords locations : list string) (j : JobListing) : Prop :=
  (∃ k, k ∈ keywords ∧ ci_substring k (title j)) ∧
  (∃ l, l ∈ locations ∧ ci_substring l (location j)).

(** The same test computed with the operations of the code, on a record. *)
Definition matchesb (keywords locations : list string) (j : JobListing) : bool :=
  existsb (λ k, Py.contains (str_lower k) (str_lower (title j))) keywords &&
  existsb (λ l, Py.contains (str_lower l) (str_lower (location j))) locations.

End wording.

(** The record that the normaliser is configured to read out of one element
    of the payload: the employer, the element's value under each configured
    field name, and the empty string for the link when none is configured. *)
Definition mapped (firm_name title_key location_key link_key : string)
    (element : gmap string pyval) (record : gmap string pyval) : Prop :=
  ∃ t l k,
    element !! title_key = Some t ∧
    element !! location_key = Some l ∧
    (if bool_decide (link_key = "") then k = PStr ""
     else element !! link_key = Some k) ∧
    record = {[ "firm" := PStr firm_name; "title" := t;
                "location" := l; "link" := k ]}.

(** An element of the payload that carries the fields of the listing [j]
    under the configured names. *)
Definition listing_of (firm_name title_key location_key link_key : string)
    (element : gmap string pyval) (j : JobListing) : Prop :=
  employer j = firm_name ∧
  element !! title_key = Some (PStr (title j)) ∧
  element !! location_key = Some (PStr (location j)) ∧
  (if bool_decide (link_key = "") then link j = ""
   else element !! link_key = Some (PStr (link j))).

(* ================================================================= *)
(** ** Reference implementations of the library interfaces *)

Module Reference.

(** [str.lower] on ASCII. *)
Definition lower_ascii (c : Ascii.ascii) : Ascii.ascii :=
  let n := Ascii.N_of_ascii c in
  if (65 <=? n)%N && (n <=? 90)%N then Ascii.ascii_of_N (n + 32) else c.

Fixpoint lower_string (s : string) : string :=
  match s with
  | "" => ""
  | String c s' => String (lower_ascii c) (lower_string s')
  end.

Definition ascii_lower : StrLower := lower_string.

(** Two characters that are the same or the two cases of one letter, and two
    strings that are so character by character. *)
Definition same_letter (a b : Ascii.ascii) : Prop :=
  let n := Ascii.N_of_ascii a in
  let m := Ascii.N_of_ascii b in
  n = m ∨
  ((65 ≤ n ≤ 90)%N ∧ m = (n + 32)%N) ∨
  ((65 ≤ m ≤ 90)%N ∧ n = (m + 32)%N).

Fixpoint equal_ignoring_case (s t : string) : Prop :=
  match s, t with
  | "", "" => True
  | String a s', String b t' => same_letter a b ∧ equal_ignoring_case s' t'
  | _, _ => False
  end.

(** A JSON codec that writes in the format of [json.dumps] with its default
    settings, for characters below 256; the members of an object are written
    in the order of the keys in the map. *)

Definition quote : Ascii.ascii := Ascii.ascii_of_N 34.
Definition backslash : Ascii.ascii := Ascii.ascii_of_N 92.

Definition hex_digit (n : N) : Ascii.ascii :=
  Ascii.ascii_of_N (if (n <? 10)%N then 48 + n else 87 + n).

Definition hex_value (c : Ascii.ascii) : option N :=
  let n := Ascii.N_of_ascii c in
  if (48 <=? n)%N && (n <=? 57)%N then Some (n - 48)%N
  else if (97 <=? n)%N && (n <=? 102)%N then Some (n - 87)%N
  else if (65 <=? n)%N && (n <=? 70)%N then Some (n - 55)%N
  else None.

(** The short escapes: the letter after the backslash and the character. *)
Definition short_escapes : list (Ascii.ascii * Ascii.ascii) :=
  [ (quote, quote); (backslash, backslash);
    (Ascii.ascii_of_N 110, Ascii.ascii_of_N 10);
    (Ascii.ascii_of_N 114, Ascii.ascii_of_N 13);
    (Ascii.ascii_of_N 116, Ascii.ascii_of_N 9);
    (Ascii.ascii_of_N 98, Ascii.ascii_of_N 8);
    (Ascii.ascii_of_N 102, Ascii.ascii_of_N 12) ].

Definition escape (c : Ascii.ascii) : string :=
  match list_find (λ p, p.2 = c) short_escapes with
  | Some (_, (letter, _)) => String backslash (String letter "")
  | None =>
      let n := Ascii.N_of_ascii c in
      if (32 <=? n)%N && (n <=? 126)%N then String c ""
      else String backslash
             (String (Ascii.ascii_of_N 117)
                (String (hex_digit 0)
                   (String (hex_digit 0)
                      (String (hex_digit (n / 16))
                         (String (hex_digit (n mod 16)) "")))))
  end.

(** The printer writes in front of the text that follows, [rest]. *)
Fixpoint escape_onto (s rest : string) : string :=
  match s with
  | "" => rest
  | String c s' => escape c +:+ escape_onto s' rest
  end.

Definition quoted_onto (s rest : string) : string :=
  String quote (escape_onto s (String quote rest)).

Fixpoint write (v : pyval) (rest : string) : string :=
  match v with
  | PNone => "null" +:+ rest
  | PBool true => "true" +:+ rest
  | PBool false => "false" +:+ rest
  | PInt z => pretty z +:+ rest
  | PStr s => quoted_onto s rest
  | PList l =>
      "[" +:+ (fix items (l : list pyval) : string :=
                 match l with
                 | [] => "]" +:+ rest
                 | [x] => write x ("]" +:+ rest)
                 | x :: l' => write x (", " +:+ items l')
                 end) l
  | PDict d =>
      "{" +:+ match map_fold (λ k x members,
                                Some (quoted_onto k
                                        (": " +:+
                                         write x match members with
                                                 | Some text => ", " +:+ text
                                                 | None => "}" +:+ rest
                                                 end)))
                             None d with
              | Some text => text
              | None => "}" +:+ rest
              end
  end.

Definition dumps (v : pyval) : string := write v "".

Fixpoint skip_spaces (s : string) : string :=
  match s with
  | String c s' => if Ascii.is_space c then skip_spaces s' else s
  | "" => ""
  end.

(** The characters of a string literal after its opening quote, and the
    text after its closing quote. *)
Fixpoint parse_text (s : string) : option (string * string) :=
  match s with
  | "" => None
  | String c s' =>
      if bool_decide (c = quote) then Some ("", s')
      else if bool_decide (c = backslash) then
        match s' with
        | "" => None
        | String e s'' =>
            if bool_decide (e = Ascii.ascii_of_N 117) then
              match s'' with
              | String h1 (String h2 (String h3 (String h4 rest))) =>
                  a ← hex_value h1; b ← hex_value h2;
                  c ← hex_value h3; d ← hex_value h4;
                  if bool_decide (a = 0 ∧ b = 0)%N then
                    '(t, r) ← parse_text rest;
                    Some (String (Ascii.ascii_of_N (16 * c + d)) t, r)
                  else None
              | _ => None
              end
            else
              '(_, (_, ch)) ← list_find (λ p, p.1 = e) short_escapes;
              '(t, r) ← parse_text s'';
              Some (String ch t, r)
        end
      else '(t, r) ← parse_text s'; Some (String c t, r)
  end.

Fixpoint parse_digits (s : string) (acc : N) : N * string :=
  match s with
  | String c s' =>
      match Ascii.is_nat c with
      | Some n => parse_digits s' (10 * acc + N.of_nat n)%N
      | None => (acc, s)
      end
  | "" => (acc, s)
  end.

Definition parse_number (s : string) : option (pyval * string) :=
  match s with
  | String c s' =>
      if bool_decide (c = Ascii.ascii_of_N 45) then
        match s' with
        | String c' _ =>
            match Ascii.is_nat c' with
            | Some _ =>
                let '(n, r) := parse_digits s' 0 in Some (PInt (- Z.of_N n), r)
            | None => None
            end
        | "" => None
        end
      else
        match Ascii.is_nat c with
        | Some _ => let '(n, r) := parse_digits s 0 in Some (PInt (Z.of_N n), r)
        | None => None
        end
  | "" => None
  end.

Fixpoint drop_chars (n : nat) (s : string) : string :=
  match n, s with
  | S n, String _ s' => drop_chars n s'
  | _, _ => s
  end.

Definition parse_word (word : string) (v : pyval) (s : string)
  : option (pyval * string) :=
  if Py.starts_with word s
  then Some (v, drop_chars (String.length word) s)
  else None.

(** [value , value , ... ]] *)
Fixpoint parse_elements (value : string → option (pyval * string))
    (n : nat) (s : string) : option (list pyval * string) :=
  match n with
  | 0 => None
  | S n =>
      '(v, s1) ← value s;
      match skip_spaces s1 with
      | String c s2 =>
          if bool_decide (c = Ascii.ascii_of_N 44) then
            '(vs, s3) ← parse_elements value n s2; Some (v :: vs, s3)
          else if bool_decide (c = Ascii.ascii_of_N 93) then Some ([v], s2)
          else None
      | "" => None
      end
  end.

(** ["key" : value , ... }] *)
Fixpoint parse_members (value : string → option (pyval * string))
    (n : nat) (s : string) : option (gmap string pyval * string) :=
  match n with
  | 0 => None
  | S n =>
      match skip_spaces s with
      | String q s0 =>
          if bool_decide (q = quote) then
            '(k, s1) ← parse_text s0;
            match skip_spaces s1 with
            | String colon s2 =>
                if bool_decide (colon = Ascii.ascii_of_N 58) then
                  '(v, s3) ← value s2;
                  match skip_spaces s3 with
                  | String c s4 =>
                      if bool_decide (c = Ascii.ascii_of_N 44) then
                        '(d, s5) ← parse_members value n s4;
                        Some (<[k := v]> d, s5)
                      else if bool_decide (c = Ascii.ascii_of_N 125)
                      then Some ({[k := v]}, s4)
                      else None
                  | "" => None
                  end
                else None
            | "" => None
            end
          else None
      | "" => None
      end
  end.

Fixpoint parse_value (fuel : nat) (s : string) : option (pyval * string) :=
  match fuel with
  | 0 => None
  | S fuel =>
      match skip_spaces s with
      | "" => None
      | String c rest =>
          if bool_decide (c = quote) then
            '(t, r) ← parse_text rest; Some (PStr t, r)
          else if bool_decide (c = Ascii.ascii_of_N 91) then
            match skip_spaces rest with
            | String c' r =>
                if bool_decide (c' = Ascii.ascii_of_N 93) then Some (PList [], r)
                else '(vs, r') ← parse_elements (parse_value fuel) fuel rest;
                     Some (PList vs, r')
            | "" => None
            end
          else if bool_decide (c = Ascii.ascii_of_N 123) then
            match skip_spaces rest with
            | String c' r =>
                if bool_decide (c' = Ascii.ascii_of_N 125) then Some (PDict ∅, r)
                else '(d, r') ← parse_members (parse_value fuel) fuel rest;
                     Some (PDict d, r')
            | "" => None
            end
          else
            match parse_word "null" PNone (String c rest) with
            | Some r => Some r
            | None =>
                match parse_word "true" (PBool true) (String c rest) with
                | Some r => Some r
                | None =>
                    match parse_word "false" (PBool false) (String c rest) with
                    | Some r => Some r
                    | None => parse_number (String c rest)
                    end
                end
            end
      end
  end.

Definition loads (text : string) : option pyval :=
  '(v, rest) ← parse_value (S (String.length text)) text;
  if bool_decide (skip_spaces rest = "") then Some v else None.

Definition json : JsonCodec := {| json_dumps := dumps; json_loads := loads |}.

(** The text of the elements of a list of job records, up to the closing
    bracket. *)
Fixpoint record_items (X : list JobListing) (rest : string) : string :=
  match X with
  | [] => "]" +:+ rest
  | [j] => write (to_dict j) ("]" +:+ rest)
  | j :: X' => write (to_dict j) (", " +:+ record_items X' rest)
  end.

(** Sample data and worlds. *)
Definition engineer : JobListing :=
  {| employer := "Acme"; title := "Software Engineer";
     location := "Remote, US"; link := "https://acme.example/1" |}.

Definition sales : JobListing :=
  {| employer := "Acme"; title := "Sales Rep";
     location := "Remote"; link := "https://acme.example/2" |}.

Definition api_params : gmap string string :=
  {[ "key" := "results"; "title" := "name";
     "location" := "where"; "link" := "url" ]}.

Definition api_element (j : JobListing) : gmap string pyval :=
  {[ "name" := PStr (title j); "where" := PStr (location j);
     "url" := PStr (link j); "id" := PInt 7 ]}.

Definition api_payload : gmap string pyval :=
  {[ "count" := PInt 2;
     "results" := PList [PDict (api_element engineer); PDict (api_element sales)] ]}.

(** No file, no variable, and every request answered with status 404. *)
Definition offline : world :=
  {| environ := ∅;
     files := ∅;
     network := λ _ _, Ok {| status_code := 404; body := "Not Found" |};
     smtp_accepts := λ _, true;
     trace := [] |}.

(** The mail settings are present and every request is answered with the
    payload. *)
Definition online : world :=
  {| environ := {[ "MAIL_SENDER" := "me@example.org";
                   "MAIL_RECIPIENT" := "you@example.org";
                   "MAIL_HOST" := "smtp.example.org";
                   "MAIL_PORT" := "587";
                   "MAIL_PASSWORD" := "secret" ]};
     files := ∅;
     network := λ _ _, Ok {| status_code := 200;
                             body := dumps (PDict api_payload) |};
     smtp_accepts := λ _, true;
     trace := [] |}.

End Reference.

(* ================================================================= *)
(** ** [scrape_job_listings] *)

(** The interface of [BeautifulSoup]: the tags of a parsed page.
    - [soup_find_all content name attrs] is
      [BeautifulSoup(content, "html.parser").find_all(name, attrs)],
    - [tag_find t name cls] is [t.find(name, class_=cls)],
    - [tag_text t] is [t.get_text(strip=True)],
    - [tag_anchor t] is [t.find("a", href=True)],
    - [tag_attr t name] is the attribute that [t[name]] looks up. *)
Class Soup := {
  soup_tag : Type;
  soup_find_all : string → string → string → list soup_tag;
  tag_find : soup_tag → string → string → option soup_tag;
  tag_text : soup_tag → string;
  tag_anchor : soup_tag → option soup_tag;
  tag_attr : soup_tag → string → option string
}.

Section scraper.
Context `{Soup}.

(** A method call on what [find] returned: [None] has no methods. *)
Definition found (o : option soup_tag) : result soup_tag :=
  match o with
  | Some t => Ok t
  | None => Raise AttributeError
  end.

(** [t[name]] *)
Definition subscript (t : soup_tag) (name : string) : result string :=
  match tag_attr t name with
  | Some v => Ok v
  | None => Raise (KeyError name)
  end.

(** The body of the loop: the dictionary appended for one container.  A tag
    is always true, so the test of [if tag := job.find("a", href=True)] is
    whether [find] returned a tag. *)
Definition scrape_listing (firm_name : string) (params : gmap string string)
    (job : soup_tag) : result pyval :=
  title_tag ← Py.config params "title_selector_tag";
  title_class ← Py.config params "title_selector_class";
  title_el ← found (tag_find job title_tag title_class);
  location_tag ← Py.config params "location_selector_tag";
  location_class ← Py.config params "location_selector_class";
  location_el ← found (tag_find job location_tag location_class);
  href ← match tag_anchor job with
         | Some tag => subscript tag "href"
         | None => subscript job "href"
         end;
  Ok (PDict {[ "firm" := PStr firm_name;
               "title" := PStr (tag_text title_el);
               "location" := PStr (tag_text location_el);
               "link" := PStr href ]}).

(** The request is made without headers and its status is not looked at. *)
Definition scrape_job_listings (firm_name : string) (params : gmap string string)
  : IO (list pyval) :=
  url ← Sys.lift (Py.config params "url");
  response ← Sys.http_get url ∅;
  job_tag ← Sys.lift (Py.config params "job_selector_tag");
  job_attr ← Sys.lift (Py.config params "job_selector_attr");
  Sys.lift (mapM (scrape_listing firm_name params)
                 (soup_find_all (body response) job_tag job_attr)).

End scraper.

(* ================================================================= *)
(** ** The script body *)

(** [x in container] for any container: a list compares its elements with
    [==], a dictionary hashes [x] and looks it up among its keys, which are
    strings, a string wants a string on the left, and nothing else is a
    container. *)
Definition contained (x container : pyval) : result bool :=
  match container with
  | PList l => Ok (Py.mem x l)
  | PDict d =>
      match x with
      | PStr k => Ok (bool_decide (is_Some (d !! k)))
      | PNone | PBool _ | PInt _ => Ok false
      | PList _ | PDict _ => Raise TypeError
      end
  | PStr s =>
      match x with
      | PStr p => Ok (Py.contains p s)
      | _ => Raise TypeError
      end
  | PNone | PBool _ | PInt _ => Raise TypeError
  end.

(** [identify_new_jobs] as the script calls it, on whatever [load_jobs]
    returned. *)
Definition identify_new_jobs_loaded (jobs : list pyval) (seen_jobs : pyval)
  : result (list pyval) :=
  Py.comprehension (λ job, b ← contained job seen_jobs; Ok (negb b)) jobs.

(** [previous_jobs.extend(new_jobs)]: only a list has the method. *)
Definition extend (previous_jobs : pyval) (new_jobs : list pyval)
  : result (list pyval) :=
  match previous_jobs with
  | PList l => Ok (l ++ new_jobs)
  | _ => Raise AttributeError
  end.

(** The dictionary of an API target: strings, but for its ["headers"], a
    dictionary of strings (the annotations of [call_job_listing_api] and
    [process_api_response]). *)
Record api_target : Type := {
  api_strings : gmap string string;
  api_headers : option (gmap string string)
}.

(** The configuration that [load_yaml] returns, a dictionary whose four
    entries may be missing; the targets come in the order of the file. *)
Record configuration : Type := {
  cfg_keywords : option (list string);
  cfg_locations : option (list string);
  cfg_soup_targets : option (list (string * gmap string string));
  cfg_api_targets : option (list (string * api_target))
}.

(** [config[key]] *)
Definition entry {A} (o : option A) (key : string) : result A :=
  match o with
  | Some x => Ok x
  | None => Raise (KeyError key)
  end.

(** [for firm, params in targets: jobs = step; all_jobs.extend(jobs)] *)
Fixpoint gather {T} (step : T → IO (list pyval)) (targets : list T)
    (all_jobs : list pyval) : IO (list pyval) :=
  match targets with
  | [] => mret all_jobs
  | target :: targets' =>
      jobs ← step target;
      gather step targets' (all_jobs ++ jobs)
  end.

Section script.
Context `{StrLower} `{JsonCodec} `{ValueFormat} `{Soup}.

Definition soup_step (keywords locations : list string)
    (target : string * gmap string string) : IO (list pyval) :=
  jobs ← scrape_job_listings target.1 target.2;
  Sys.lift (filter_jobs jobs keywords locations).

Definition api_step (keywords locations : list string)
    (target : string * api_target) : IO (list pyval) :=
  url ← Sys.lift (Py.config (api_strings target.2) "url");
  headers ← Sys.lift (entry (api_headers target.2) "headers");
  data ← call_job_listing_api url headers;
  jobs ← Sys.lift (process_api_response data target.1 (api_strings target.2));
  Sys.lift (filter_jobs jobs keywords locations).

(** From "Load previously identified jobs" to the end of the script. *)
Definition settle (all_jobs : list pyval) : IO unit :=
  previous_jobs ← load_jobs "jobs.json";
  new_jobs ← Sys.lift (identify_new_jobs_loaded all_jobs previous_jobs);
  match new_jobs with
  | [] => mret ()
  | _ :: _ => send_email_notification new_jobs
  end;;
  stored ← Sys.lift (extend previous_jobs new_jobs);
  save_jobs stored "jobs.json".

(** The script body after [config = load_yaml("config.yaml")]. *)
Definition main (config : configuration) : IO unit :=
  keywords ← Sys.lift (entry (cfg_keywords config) "keywords");
  locations ← Sys.lift (entry (cfg_locations config) "locations");
  soup_targets ← Sys.lift (entry (cfg_soup_targets config) "soup_targets");
  all_jobs ← gather (soup_step keywords locations) soup_targets [];
  api_targets ← Sys.lift (entry (cfg_api_targets config) "api_targets");
  all_jobs ← gather (api_step keywords locations) api_targets all_jobs;
  settle all_jobs.

End script.

(** A computation is [readonly] when it leaves the environment, the files
    and the answers of the network and of the mail server as they are. *)
Definition same_resources (w w' : world) : Prop :=
  environ w' = environ w ∧ files w' = files w ∧
  network w' = network w ∧ smtp_accepts w' = smtp_accepts w.

Definition readonly {A} (m : IO A) : Prop :=
  ∀ w, same_resources w (m w).2.

(** The events of a trace that are SMTP commands. *)
Definition smtp_commands (evs : list event) : list smtp_command :=
  omap (λ ev, match ev with EvSmtp c => Some c | _ => None end) evs.

(** A computation [guards_store] when, of the files, it changes at most
    ["jobs.json"], and not even that when it raises; the environment and the
    answers of the network and of the mail server stay as they are. *)
Definition guards_store {A} (m : IO A) : Prop :=
  ∀ w,
    environ (m w).2 = environ w ∧
    network (m w).2 = network w ∧
    smtp_accepts (m w).2 = smtp_accepts w ∧
    (∀ path, path ≠ "jobs.json" → files (m w).2 !! path = files w !! path) ∧
    (∀ e, (m w).1 = Raise e → files (m w).2 = files w).

(* ================================================================= *)
(** ** Stand-ins for the HTML library and the remaining fixtures *)

Module Stub.

(** A page is a list of cards; a card has at most one title, one location,
    one anchor with an [href], and an [href] of its own.  [tag_find] returns
    the text of the title or of the location as a leaf. *)
Inductive tag : Type :=
| Card (title_text location_text anchor_href own_href : option string)
| Leaf (text : string) (href : option string).

Definition careers : list tag :=
  [ Card (Some "Software Engineer") (Some "Remote, US")
         (Some "https://acme.example/1") None;
    Card (Some "Sales Rep") (Some "Remote")
         None (Some "https://acme.example/2") ].

(** A page whose second card has no title. *)
Definition broken : list tag :=
  [ Card (Some "Software Engineer") (Some "Remote, US")
         (Some "https://acme.example/1") None;
    Card None (Some "Remote") None (Some "https://acme.example/2") ].

(** A page whose second card has no link. *)
Definition unlinked : list tag :=
  [ Card (Some "Software Engineer") (Some "Remote, US")
         (Some "https://acme.example/1") None;
    Card (Some "Sales Rep") (Some "Remote") None None ].

Definition soup : Soup :=
  {| soup_tag := tag;
     soup_find_all content name attrs :=
       if bool_decide (name = "div" ∧ attrs = "job") then
         if bool_decide (content = "careers") then careers
         else if bool_decide (content = "broken") then broken
         else if bool_decide (content = "unlinked") then unlinked
         else []
       else [];
     tag_find t name cls :=
       match t with
       | Card title_text location_text _ _ =>
           if bool_decide (cls = "title") then (λ s, Leaf s None) <$> title_text
           else if bool_decide (cls = "location")
                then (λ s, Leaf s None) <$> location_text
                else None
       | Leaf _ _ => None
       end;
     tag_text t :=
       match t with
       | Leaf text _ => text
       | Card _ _ _ _ => ""
       end;
     tag_anchor t :=
       match t with
       | Card _ _ (Some href) _ => Some (Leaf "" (Some href))
       | _ => None
       end;
     tag_attr t name :=
       if bool_decide (name = "href") then
         match t with
         | Card _ _ _ href => href
         | Leaf _ href => href
         end
       else None |}.

Definition repr : ValueFormat := λ _, "...".

Definition soup_params : gmap string string :=
  {[ "url" := "https://acme.example/careers";
     "job_selector_tag" := "div";
     "job_selector_attr" := "job";
     "title_selector_tag" := "h2";
     "title_selector_class" := "title";
     "location_selector_tag" := "span";
     "location_selector_class" := "location" ]}.

Definition api : api_target :=
  {| api_strings := <["url" := "https://acme.example/api"]> Reference.api_params;
     api_headers := Some {[ "Accept" := "application/json" ]} |}.

Definition config : configuration :=
  {| cfg_keywords := Some ["engineer"];
     cfg_locations := Some ["remote"];
     cfg_soup_targets := Some [("Acme", soup_params)];
     cfg_api_targets := Some [("Acme", api)] |}.

(** The mail settings are present, the careers page and the API answer with
    status 200, and the mail server accepts everything. *)
Definition web : world :=
  {| environ := environ Reference.online;
     files := ∅;
     network := λ url _,
       if bool_decide (url = "https://acme.example/careers")
       then Ok {| status_code := 200; body := "careers" |}
       else Ok {| status_code := 200;
                  body := Reference.dumps (PDict Reference.api_payload) |};
     smtp_accepts := λ _, true;
     trace := [] |}.

(** Every request is answered with status [status] and the page
    [content]. *)
Definition serving (status : Z) (content : string) : world :=
  {| environ := environ Reference.online;
     files := ∅;
     network := λ _ _, Ok {| status_code := status; body := content |};
     smtp_accepts := λ _, true;
     trace := [] |}.

(** The mail server refuses every login. *)
Definition locked : world :=
  {| environ := environ Reference.online;
     files := ∅;
     network := network Reference.online;
     smtp_accepts := λ c, match c with SmtpLogin _ _ => false | _ => true end;
     trace := [] |}.

(** The password is not set. *)
Definition no_password : world :=
  {| environ := delete "MAIL_PASSWORD" (environ Reference.online);
     files := ∅;
     network := network Reference.online;
     smtp_accepts := λ _, true;
     trace := [] |}.

(** The store holds a JSON object instead of an array. *)
Definition overwritten : world :=
  {| environ := environ Reference.online;
     files := {[ "jobs.json" := "{}" ]};
     network := network Reference.online;
     smtp_accepts := λ _, true;
     trace := [] |}.

(** The store already holds the first sample record. *)
Definition known : world :=
  {| environ := environ Reference.online;
     files := {[ "jobs.json" :=
                   Reference.dumps (PList [to_dict Reference.engineer]) ]};
     network := network Reference.online;
     smtp_accepts := λ _, true;
     trace := [] |}.

End Stub.

(** A container of the page that shows the listing [j]: its title and
    location elements carry the texts, and the link is the [href] of its
    first anchor, or its own [href] when it has no anchor. *)
Definition shows `{Soup} (firm_name title_tag title_class
    location_tag location_class : string)
    (container : soup_tag) (j : JobListing) : Prop :=
  employer j = firm_name ∧
  (∃ el, tag_find container title_tag title_class = Some el ∧
         tag_text el = title j) ∧
  (∃ el, tag_find container location_tag location_class = Some el ∧
         tag_text el = location j) ∧
  match tag_anchor container with
  | Some anchor => tag_attr anchor "href"
  | None => tag_attr container "href"
  end = Some (link j).

(** The selectors of an HTML target are all configured. *)
Definition selectors (params : gmap string string)
    (url job_tag job_attr title_tag title_class
     location_tag location_class : string) : Prop :=
  params !! "url" = Some url ∧
  params !! "job_selector_tag" = Some job_tag ∧
  params !! "job_selector_attr" = Some job_attr ∧
  params !! "title_selector_tag" = Some title_tag ∧
  params !! "title_selector_class" = Some title_class ∧
  params !! "location_selector_tag" = Some location_tag ∧
  params !! "location_selector_class" = Some location_class.

(** The payload [data] holds the listing array [items], directly or under
    the configured key. *)
Definition holds_array (params : gmap string string) (data : pyval)
    (items : list pyval) : Prop :=
  data = PList items ∨
  ∃ d key, data = PDict d ∧ params !! "key" = Some key ∧
           d !! key = Some (PList items).

(** What the notifier writes for one listing, the message it sends for a
    list of listings, and the interactions of a session that goes well. *)
Definition announcement (j : JobListing) : string :=
  employer j +:+ " - " +:+ title j +:+ " - " +:+ location j
  +:+ newline +:+ link j.

Definition mail (sender recipient : string) (js : list JobListing) : message :=
  {| msg_body := String.concat newline (announcement <$> js);
     msg_subject := "New MLE Job Openings";
     msg_from := sender;
     msg_to := recipient |}.

Definition session (sender recipient host port password : string)
    (js : list JobListing) : list event :=
  [ EvEnviron "MAIL_SENDER"; EvEnviron "MAIL_RECIPIENT";
    EvEnviron "MAIL_HOST"; EvEnviron "MAIL_PORT";
    EvSmtp (SmtpConnect host port);
    EvSmtp SmtpStartTls;
    EvEnviron "MAIL_PASSWORD";
    EvSmtp (SmtpLogin sender password);
    EvSmtp (SmtpSendMessage (mail sender recipient js));
    EvSmtp SmtpQuit ].

(** The four settings that are read before the connection is opened. *)
Definition address_settings (w : world) (sender recipient host port : string)
  : Prop :=
  environ w !! "MAIL_SENDER" = Some sender ∧
  environ w !! "MAIL_RECIPIENT" = Some recipient ∧
  environ w !! "MAIL_HOST" = Some host ∧
  environ w !! "MAIL_PORT" = Some port.

(* ================================================================= *)
(** * Properties *)

(** ** Substrings *)

Lemma starts_with_spec p s :
  Py.starts_with p s = true ↔ ∃ post, s = p +:+ post.
Proof.
  revert s. induction p as [|a p IH]; intros s; simpl.
  - split; [intros _; by exists s | done].
  - destruct s as [|b s].
    + split; [done | intros [post Hpost]; discriminate].
    + rewrite andb_true_iff, bool_decide_eq_true, IH. split.
      * intros [-> [post ->]]. by exists post.
      * intros [post Hpost]. injection Hpost as -> ->. eauto.
Qed.

Lemma contains_spec needle hay :
  Py.contains needle hay = true ↔ ∃ pre post, hay = pre +:+ needle +:+ post.
Proof.
  induction hay as [|c hay IH]; simpl; rewrite orb_true_iff, starts_with_spec.
  - split.
    + intros [[post Hpost] | ?]; [|done]. by exists "", post.
    + intros [[|??] [post Hpost]]; [|discriminate]. left. by exists post.
  - rewrite IH. split.
    + intros [[post Hpost] | (pre & post & ->)].
      * by exists "", post.
      * by exists (String c pre), post.
    + intros [[|c' pre] [post Hpost]].
      * left. by exists post.
      * right. injection Hpost as -> ->. eauto.
Qed.

(** ** The combinators on total conditions *)

Lemma any_total {A} (f : A → bool) (l : list A) :
  Py.any (λ x, Ok (f x)) l = Ok (existsb f l).
Proof.
  induction l as [|x l IH]; simpl; [done|].
  destruct (f x); simpl; [done | apply IH].
Qed.

Lemma any_ext {A} (f g : A → result bool) (l : list A) :
  (∀ x, f x = g x) → Py.any f l = Py.any g l.
Proof. intros Hfg. induction l as [|x l IH]; simpl; [done|]. by rewrite Hfg, IH. Qed.

Lemma comprehension_total {A B} (f : B → result bool) (g : A → B) (p : A → bool)
    (l : list A) :
  (∀ x, f (g x) = Ok (p x)) →
  Py.comprehension f (g <$> l) = Ok (g <$> List.filter p l).
Proof.
  intros Hf. induction l as [|x l IH]; csimpl; [done|].
  rewrite Hf, IH. csimpl. by destruct (p x).
Qed.

Lemma comprehension_sublist {A} (f : A → result bool) (l out : list A) :
  Py.comprehension f l = Ok out → out `sublist_of` l.
Proof.
  revert out. induction l as [|x l IH]; simpl; intros out.
  - intros [= <-]. constructor.
  - destruct (f x) as [b|]; simpl; [|done].
    destruct (Py.comprehension f l) as [rest|]; simpl; [|done].
    intros [= <-]. destruct b; [apply sublist_skip | apply sublist_cons]; by apply IH.
Qed.

Lemma comprehension_idempotent {A} (f : A → result bool) (l out : list A) :
  Py.comprehension f l = Ok out → Py.comprehension f out = Ok out.
Proof.
  revert out. induction l as [|x l IH]; simpl; intros out.
  - by intros [= <-].
  - destruct (f x) as [b|] eqn:Hx; simpl; [|done].
    destruct (Py.comprehension f l) as [rest|]; simpl; [|done].
    intros [= <-]. destruct b; [|by apply IH].
    simpl. by rewrite Hx, (IH rest).
Qed.

Lemma filter_none {A} (p : A → bool) (l : list A) :
  (∀ x, p x = false) → List.filter p l = [].
Proof. intros Hp. induction l as [|x l IH]; simpl; [done|]. by rewrite Hp. Qed.

Lemma filter_all {A} (p : A → bool) (l : list A) :
  (∀ x, p x = true) → List.filter p l = l.
Proof. intros Hp. induction l as [|x l IH]; simpl; [done|]. by rewrite Hp, IH. Qed.

Lemma filter_decide {A} (P : A → Prop) `{!∀ x, Decision (P x)} (p : A → bool)
    (l : list A) :
  (∀ x, p x = true ↔ P x) → List.filter p l = filter P l.
Proof.
  intros Hp. induction l as [|x l IH]; simpl; [done|].
  rewrite filter_cons, IH. destruct (p x) eqn:Hx, (decide (P x)) as [HP|HP]; try done.
  - apply Hp in Hx. done.
  - apply Hp in HP. congruence.
Qed.

(** ** [filter_jobs] on job records *)

Section filter_properties.
Context `{StrLower}.

Lemma field_matches_title j w :
  field_matches (to_dict j) "title" w
  = Ok (Py.contains (str_lower w) (str_lower (title j))).
Proof. reflexivity. Qed.

Lemma field_matches_location j w :
  field_matches (to_dict j) "location" w
  = Ok (Py.contains (str_lower w) (str_lower (location j))).
Proof. reflexivity. Qed.

Lemma job_matches_record keywords locations j :
  job_matches keywords locations (to_dict j) = Ok (matchesb keywords locations j).
Proof.
  unfold job_matches, matchesb.
  rewrite (any_ext _ _ _ (field_matches_title j)), any_total. simpl.
  destruct (existsb _ keywords); simpl; [|done].
  by rewrite (any_ext _ _ _ (field_matches_location j)), any_total.
Qed.

Lemma filter_jobs_records js keywords locations :
  filter_jobs (to_dict <$> js) keywords locations
  = Ok (to_dict <$> List.filter (matchesb keywords locations) js).
Proof. apply comprehension_total, job_matches_record. Qed.

Lemma matchesb_wanted keywords locations j :
  matchesb keywords locations j = true ↔ wanted keywords locations j.
Proof.
  unfold matchesb, wanted, ci_substring.
  rewrite andb_true_iff, !existsb_exists.
  setoid_rewrite contains_spec. setoid_rewrite list_elem_of_In. done.
Qed.

Lemma wanted_decidable keywords locations j :
  Decision (wanted keywords locations j).
Proof.
  destruct (matchesb keywords locations j) eqn:Hm.
  - left. by apply matchesb_wanted.
  - right. rewrite <- matchesb_wanted. congruence.
Defined.

(** C1. On every list of job records, [filter_jobs] returns the records for
    which at least one keyword is a case-insensitive substring of the title
    and at least one location string is a case-insensitive substring of the
    location, and no others, in their order: it is the filter of the list by
    [wanted], whichever way [wanted] is decided. *)
Theorem filter_jobs_keeps_wanted (js : list JobListing)
    (keywords locations : list string)
    `{!∀ j, Decision (wanted keywords locations j)} :
  filter_jobs (to_dict <$> js) keywords locations
  = Ok (to_dict <$> filter (wanted keywords locations) js).
Proof.
  rewrite filter_jobs_records. do 2 f_equal.
  apply filter_decide, matchesb_wanted.
Qed.

(** With no keyword nothing is examined, whatever the jobs are. *)
Lemma filter_jobs_no_keywords (jobs : list pyval) (locations : list string) :
  filter_jobs jobs [] locations = Ok [].
Proof.
  unfold filter_jobs. induction jobs as [|job jobs IH]; simpl; [done|].
  by rewrite IH.
Qed.

(** C2. On every list of job records, an empty keyword list gives the empty
    list whatever the locations, and an empty location list gives the empty
    list whatever the keywords. *)
Theorem filter_jobs_empty_criteria (js : list JobListing)
    (keywords locations : list string) :
  filter_jobs (to_dict <$> js) [] locations = Ok [] ∧
  filter_jobs (to_dict <$> js) keywords [] = Ok [].
Proof.
  rewrite !filter_jobs_records. split.
  - by rewrite filter_none.
  - rewrite filter_none; [done|]. intros j. unfold matchesb. apply andb_false_r.
Qed.

(** Filtering any list of Python values twice: when the first pass returns,
    the second returns the same list, a subsequence of the input. *)
Lemma filter_jobs_again (jobs out : list pyval) (keywords locations : list string) :
  filter_jobs jobs keywords locations = Ok out →
  filter_jobs out keywords locations = Ok out ∧ out `sublist_of` jobs.
Proof.
  unfold filter_jobs. intros Hout. split.
  - by eapply comprehension_idempotent.
  - by eapply comprehension_sublist.
Qed.

(** C10. On every list of job records the filter returns a list [out];
    filtering [out] again with the same keywords and locations returns [out],
    and [out] is a subsequence of the input. *)
Theorem filter_jobs_idempotent (js : list JobListing)
    (keywords locations : list string) :
  ∃ out,
    filter_jobs (to_dict <$> js) keywords locations = Ok out ∧
    filter_jobs out keywords locations = Ok out ∧
    out `sublist_of` (to_dict <$> js).
Proof.
  eexists. split; [apply filter_jobs_records|].
  apply filter_jobs_again, filter_jobs_records.
Qed.

End filter_properties.

(** ** Induction on Python values *)

Lemma pyval_size_elem (l : list pyval) (x : pyval) :
  x ∈ l → pyval_size x < pyval_size (PList l).
Proof.
  simpl. induction 1 as [x l | x y l _ IH]; simpl; lia.
Qed.

Lemma pyval_size_lookup (d : gmap string pyval) (k : string) (x : pyval) :
  d !! k = Some x → pyval_size x < pyval_size (PDict d).
Proof.
  simpl. revert k x.
  apply (map_fold_weak_ind
           (λ r m, ∀ k x, m !! k = Some x → pyval_size x < S r)).
  - intros k x. by rewrite lookup_empty.
  - intros i y m r _ IH k x. rewrite lookup_insert_Some.
    intros [[_ ->] | [_ Hk]]; [lia|]. specialize (IH k x Hk). lia.
Qed.

Lemma pyval_ind' (P : pyval → Prop) :
  P PNone →
  (∀ b, P (PBool b)) →
  (∀ z, P (PInt z)) →
  (∀ s, P (PStr s)) →
  (∀ l, Forall P l → P (PList l)) →
  (∀ d, map_Forall (λ _, P) d → P (PDict d)) →
  ∀ v, P v.
Proof.
  intros HNone HBool HInt HStr HList HDict v.
  remember (pyval_size v) as n eqn:Hn. revert v Hn.
  induction (lt_wf n) as [n _ IH]. intros v ->.
  destruct v as [| | | |l|d]; auto.
  - apply HList, Forall_forall. intros x Hx.
    by apply (IH _ (pyval_size_elem l x Hx)).
  - apply HDict. intros k x Hk.
    by apply (IH _ (pyval_size_lookup d k x Hk)).
Qed.

(** ** Equality of Python values *)

Lemma fold_andb_Forall {A} (f : string → A → bool) (m : gmap string A) :
  map_fold (λ k v acc, acc && f k v) true m = true
  ↔ map_Forall (λ k v, f k v = true) m.
Proof.
  apply (map_fold_weak_ind
           (λ r m, r = true ↔ map_Forall (λ k v, f k v = true) m)).
  - split; [intros _; apply map_Forall_empty | done].
  - intros i x m' r Hi IH.
    rewrite andb_true_iff, IH, map_Forall_insert by done. tauto.
Qed.

Lemma eqb_dict (d1 d2 : gmap string pyval) :
  Py.eqb (PDict d1) (PDict d2) = true
  ↔ size d1 = size d2 ∧
    map_Forall (λ k v, ∃ w, d2 !! k = Some w ∧ Py.eqb v w = true) d1.
Proof.
  simpl. rewrite andb_true_iff, bool_decide_eq_true, fold_andb_Forall.
  apply and_iff_compat_l. unfold map_Forall.
  split; intros Hd k v Hk; specialize (Hd k v Hk).
  - destruct (d2 !! k) as [w|]; [eauto | done].
  - destruct Hd as (w & -> & Hw). done.
Qed.

Lemma eqb_list_refl (l : list pyval) :
  Forall (λ x, Py.eqb x x = true) l → Py.eqb (PList l) (PList l) = true.
Proof.
  simpl. induction 1 as [|x l Hx _ IH]; [done|]. by rewrite Hx, IH.
Qed.

(** [==] is reflexive, so the identity test that [in] makes before [==]
    adds nothing. *)
Lemma eqb_refl (v : pyval) : Py.eqb v v = true.
Proof.
  induction v as [|b|z|s|l IH|d IH] using pyval_ind'.
  - done.
  - simpl. by apply bool_decide_eq_true.
  - simpl. by apply bool_decide_eq_true.
  - simpl. by apply bool_decide_eq_true.
  - by apply eqb_list_refl.
  - apply eqb_dict. split; [done|]. intros k v Hk. exists v. split; [done|].
    by apply (IH k v).
Qed.

Lemma eqb_dict_keys (d1 d2 : gmap string pyval) :
  Py.eqb (PDict d1) (PDict d2) = true → dom d1 = dom d2.
Proof.
  rewrite eqb_dict. intros [Hsize Hall].
  apply set_subseteq_size_eq; [|rewrite !size_dom; lia].
  intros k. rewrite !elem_of_dom. intros [v Hv].
  destruct (Hall k v Hv) as (w & Hw & _). eauto.
Qed.

Lemma eqb_list_flip (l1 l2 : list pyval) :
  Forall (λ x, ∀ y, Py.eqb x y = true → Py.eqb y x = true) l1 →
  Py.eqb (PList l1) (PList l2) = true → Py.eqb (PList l2) (PList l1) = true.
Proof.
  simpl. intros Hall. revert l2.
  induction Hall as [|x l1 Hx _ IH]; intros [|y l2]; try done.
  rewrite !andb_true_iff. intros [Hxy Hrest]. split; [by apply Hx | by apply IH].
Qed.

Lemma eqb_flip (a b : pyval) : Py.eqb a b = true → Py.eqb b a = true.
Proof.
  revert b. induction a as [|x|x|x|l1 IH|d1 IH] using pyval_ind';
    intros [|y|y|y|l2|d2]; try done.
  - simpl. rewrite !bool_decide_eq_true. congruence.
  - simpl. rewrite !bool_decide_eq_true. congruence.
  - simpl. rewrite !bool_decide_eq_true. congruence.
  - by apply eqb_list_flip.
  - intros Heq. pose proof (eqb_dict_keys _ _ Heq) as Hdom.
    apply eqb_dict in Heq as [Hsize Hall]. apply eqb_dict. split; [done|].
    intros k w Hw.
    assert (k ∈ dom d1) as [v Hv]%elem_of_dom.
    { rewrite Hdom. apply elem_of_dom. eauto. }
    destruct (Hall k v Hv) as (w' & Hw' & Hvw).
    assert (w' = w) as -> by congruence.
    exists v. split; [done|]. by apply (IH k v).
Qed.

(** [==] is symmetric, so it does not matter which operand [in] puts
    first. *)
Lemma eqb_sym (a b : pyval) : Py.eqb a b = Py.eqb b a.
Proof.
  destruct (Py.eqb a b) eqn:Hab, (Py.eqb b a) eqn:Hba; try done.
  - apply eqb_flip in Hab. congruence.
  - apply eqb_flip in Hba. congruence.
Qed.

Lemma eqb_records (a b : JobListing) :
  Py.eqb (to_dict a) (to_dict b) = true ↔ a = b.
Proof.
  split; [|intros ->; apply eqb_refl].
  unfold to_dict. rewrite eqb_dict. intros [_ Hall].
  destruct a as [e1 t1 l1 k1], b as [e2 t2 l2 k2]; simpl in *.
  pose proof (Hall "firm" _ eq_refl) as (w1 & Hw1 & He).
  pose proof (Hall "title" _ eq_refl) as (w2 & Hw2 & Ht).
  pose proof (Hall "location" _ eq_refl) as (w3 & Hw3 & Hl).
  pose proof (Hall "link" _ eq_refl) as (w4 & Hw4 & Hk).
  vm_compute in Hw1, Hw2, Hw3, Hw4.
  injection Hw1 as <-. injection Hw2 as <-.
  injection Hw3 as <-. injection Hw4 as <-.
  simpl in He, Ht, Hl, Hk.
  rewrite bool_decide_eq_true in He, Ht, Hl, Hk. congruence.
Qed.

Lemma mem_records (j : JobListing) (seen : list JobListing) :
  Py.mem (to_dict j) (to_dict <$> seen) = true ↔ j ∈ seen.
Proof.
  unfold Py.mem. rewrite existsb_exists. split.
  - intros (v & Hv & Heq). apply list_elem_of_In, list_elem_of_fmap in Hv.
    destruct Hv as (j' & -> & Hj'). by apply eqb_records in Heq as ->.
  - intros Hj. exists (to_dict j). split; [|apply eqb_refl].
    by apply list_elem_of_In, list_elem_of_fmap_2.
Qed.

Lemma filter_fmap {A B} (g : A → B) (p : B → bool) (l : list A) :
  List.filter p (g <$> l) = g <$> List.filter (p ∘ g) l.
Proof.
  induction l as [|x l IH]; csimpl; [done|].
  destruct (p (g x)); csimpl; by rewrite IH.
Qed.

(** ** [identify_new_jobs] *)

(** C3. On every list of current listings and every list of seen listings,
    [identify_new_jobs] returns the current listings that are not equal, as
    records, to any seen listing, in the order of the current listings. *)
Theorem identify_new_jobs_not_seen (js seen : list JobListing) :
  identify_new_jobs (to_dict <$> js) (to_dict <$> seen)
  = to_dict <$> filter (λ j, j ∉ seen) js.
Proof.
  unfold identify_new_jobs. rewrite filter_fmap. f_equal.
  apply filter_decide. intros j; simpl.
  rewrite negb_true_iff, <- not_true_iff_false. by rewrite mem_records.
Qed.

(** C4. For every list [J] of listings, indeed of any Python values, the
    diff against the empty list is [J] and the diff against [J] is empty. *)
Theorem identify_new_jobs_empty_self (J : list pyval) :
  identify_new_jobs J [] = J ∧ identify_new_jobs J J = [].
Proof.
  unfold identify_new_jobs. split.
  - by apply filter_all.
  - assert (Hall : ∀ l, (∀ j, j ∈ l → j ∈ J) →
                        List.filter (λ job, negb (Py.mem job J)) l = []).
    { induction l as [|j l IH]; intros Hl; simpl; [done|].
      assert (Py.mem j J = true) as ->.
      { apply existsb_exists. exists j. split; [|apply eqb_refl].
        apply list_elem_of_In, Hl. left. }
      simpl. apply IH. intros j' Hj'. apply Hl. by right. }
    by apply Hall.
Qed.

(** ** [process_api_response] *)

Lemma normalise_mapped firm_name params title_key location_key link_key
    (element : gmap string pyval) :
  params !! "title" = Some title_key →
  params !! "location" = Some location_key →
  params !! "link" = Some link_key →
  is_Some (element !! title_key) →
  is_Some (element !! location_key) →
  (link_key ≠ "" → is_Some (element !! link_key)) →
  ∃ record,
    normalise firm_name params (PDict element) = Ok (PDict record) ∧
    mapped firm_name title_key location_key link_key element record.
Proof.
  intros Ht Hl Hk [t Het] [l Hel] Hlink.
  unfold normalise, Py.config, mapped. rewrite Ht, Hl, Hk. simpl.
  rewrite Het, Hel. simpl. case_bool_decide as Hempty; simpl.
  - eexists. split; [done|]. by exists t, l, (PStr "").
  - destruct (Hlink Hempty) as [k Hek]. rewrite Hek. simpl.
    eexists. split; [done|]. by exists t, l, k.
Qed.

Lemma mapM_normalise firm_name params title_key location_key link_key
    (elements : list (gmap string pyval)) :
  params !! "title" = Some title_key →
  params !! "location" = Some location_key →
  params !! "link" = Some link_key →
  Forall (λ element,
            is_Some (element !! title_key) ∧
            is_Some (element !! location_key) ∧
            (link_key ≠ "" → is_Some (element !! link_key))) elements →
  ∃ records,
    mapM (normalise firm_name params) (PDict <$> elements)
    = Ok (PDict <$> records) ∧
    Forall2 (mapped firm_name title_key location_key link_key) elements records.
Proof.
  intros Ht Hl Hk. induction 1 as [|element elements (Het & Hel & Hek) _ IH].
  - by exists [].
  - destruct IH as (records & Hrecords & Hall).
    destruct (normalise_mapped firm_name params _ _ _ element Ht Hl Hk Het Hel Hek)
      as (record & Hrecord & Hmapped).
    exists (record :: records). split; [|by constructor].
    rewrite fmap_cons. cbn [mapM]. rewrite Hrecord. cbn [mbind result_bind].
    by rewrite Hrecords.
Qed.

(** C8. When the payload is an object, [process_api_response] looks up the
    configured key and goes on with what is stored there: if that is the
    listing array, the result is that of the array given directly.  An array
    whose elements carry the configured fields is mapped element by element
    to the records made of the employer and the values of the configured
    title, location and link fields. *)
Theorem process_api_response_descends :
  (∀ firm_name params key (d : gmap string pyval) (items : list pyval),
     params !! "key" = Some key →
     d !! key = Some (PList items) →
     process_api_response (PDict d) firm_name params
     = process_api_response (PList items) firm_name params) ∧
  (∀ firm_name params title_key location_key link_key
     (elements : list (gmap string pyval)),
     params !! "title" = Some title_key →
     params !! "location" = Some location_key →
     params !! "link" = Some link_key →
     Forall (λ element,
               is_Some (element !! title_key) ∧
               is_Some (element !! location_key) ∧
               (link_key ≠ "" → is_Some (element !! link_key))) elements →
     ∃ records,
       process_api_response (PList (PDict <$> elements)) firm_name params
       = Ok (PDict <$> records) ∧
       Forall2 (mapped firm_name title_key location_key link_key)
               elements records).
Proof.
  split.
  - intros firm_name params key d items Hkey Hd.
    unfold process_api_response, Py.config. rewrite Hkey. simpl. by rewrite Hd.
  - intros firm_name params title_key location_key link_key elements Ht Hl Hk Hall.
    unfold process_api_response. simpl.
    by apply (mapM_normalise firm_name params title_key location_key link_key).
Qed.

(** A payload whose elements carry strings under the configured names is
    normalised to job records, the input that the filter and the diff engine
    are specified on. *)
Lemma normalise_listing firm_name params title_key location_key link_key
    (element : gmap string pyval) (j : JobListing) :
  params !! "title" = Some title_key →
  params !! "location" = Some location_key →
  params !! "link" = Some link_key →
  listing_of firm_name title_key location_key link_key element j →
  normalise firm_name params (PDict element) = Ok (to_dict j).
Proof.
  intros Ht Hl Hk (<- & Het & Hel & Hek).
  unfold normalise, Py.config, to_dict. rewrite Ht, Hl, Hk. simpl.
  rewrite Het, Hel. simpl. case_bool_decide; simpl.
  - by rewrite Hek.
  - by rewrite Hek.
Qed.

Lemma process_api_response_listings firm_name params
    title_key location_key link_key
    (elements : list (gmap string pyval)) (js : list JobListing) :
  params !! "title" = Some title_key →
  params !! "location" = Some location_key →
  params !! "link" = Some link_key →
  Forall2 (listing_of firm_name title_key location_key link_key) elements js →
  process_api_response (PList (PDict <$> elements)) firm_name params
  = Ok (to_dict <$> js).
Proof.
  intros Ht Hl Hk Hall. unfold process_api_response. simpl.
  induction Hall as [|element j elements js Hj _ IH]; [done|].
  rewrite !fmap_cons. cbn [mapM].
  rewrite (normalise_listing _ _ _ _ _ _ _ Ht Hl Hk Hj).
  cbn [mbind result_bind]. by rewrite IH.
Qed.

(** [None] is neither a dictionary nor iterable. *)
Lemma process_api_response_none firm_name params :
  process_api_response PNone firm_name params = Raise TypeError.
Proof. reflexivity. Qed.

(** ** [call_job_listing_api] and the persistence functions *)

Section io_properties.
Context `{JsonCodec}.

Lemma call_job_listing_api_failure url headers w resp :
  network w url headers = Ok resp →
  status_code resp ≠ 200%Z →
  ∃ w', call_job_listing_api url headers w = (Ok PNone, w').
Proof.
  intros Hnet Hstatus. unfold call_job_listing_api.
  unfold Sys.http_get, Sys.inspect, Sys.record, Sys.update, Sys.print.
  unfold mbind, IO_bind, mret, IO_ret. simpl. rewrite Hnet.
  rewrite bool_decide_eq_false_2 by done. eauto.
Qed.

(** C9. Whenever the request is answered with a status other than 200, the
    collector returns [None], and the normaliser applied to what the
    collector returned, as [main] does, raises [TypeError]; it does not
    return the empty list. *)
Theorem failed_request_breaks_normaliser url headers firm_name params w resp :
  network w url headers = Ok resp →
  status_code resp ≠ 200%Z →
  (call_job_listing_api url headers w).1 = Ok PNone ∧
  ((data ← call_job_listing_api url headers;
    Sys.lift (process_api_response data firm_name params)) w).1
  = Raise TypeError.
Proof.
  intros Hnet Hstatus.
  destruct (call_job_listing_api_failure url headers w resp Hnet Hstatus)
    as [w' Hcall].
  unfold mbind at 1, IO_bind. by rewrite Hcall.
Qed.

(** C6. When no file exists at the path, [load_jobs] returns the empty list;
    nothing is raised. *)
Theorem load_jobs_missing_file filepath w :
  files w !! filepath = None →
  (load_jobs filepath w).1 = Ok (PList []).
Proof.
  intros Hmissing. unfold load_jobs, Sys.except_file_not_found, Sys.read_file.
  unfold Sys.inspect, Sys.record, Sys.update, mbind, IO_bind. simpl.
  by rewrite Hmissing.
Qed.

(** C5. For every list [X] of job records whose JSON text the codec reads
    back as written, saving [X] at a path succeeds and loading from that
    path afterwards returns [X]. *)
Theorem save_then_load (X : list JobListing) filepath w :
  json_loads (json_dumps (PList (to_dict <$> X))) = Some (PList (to_dict <$> X)) →
  (save_jobs (to_dict <$> X) filepath w).1 = Ok () ∧
  (load_jobs filepath (save_jobs (to_dict <$> X) filepath w).2).1
  = Ok (PList (to_dict <$> X)).
Proof.
  intros Hcodec. split; [done|].
  unfold load_jobs, save_jobs, Sys.except_file_not_found.
  unfold Sys.read_file, Sys.write_file, Sys.inspect, Sys.record, Sys.update.
  unfold mbind, IO_bind, Sys.lift, json_value. simpl.
  by rewrite lookup_insert_eq, Hcodec.
Qed.

End io_properties.

(** ** [send_email_notification] *)

Section notifier_properties.
Context `{ValueFormat}.

(** C7. With an empty list the notifier returns at once and leaves the
    world as it is: the trace, which records every read of the environment
    and every SMTP command, is unchanged. *)
Theorem send_email_notification_empty (w : world) :
  send_email_notification [] w = (Ok (), w).
Proof. reflexivity. Qed.

End notifier_properties.

(** ** The trace only grows *)

Create HintDb io discriminated.

Lemma extends_refl w : extends w w.
Proof. exists []. by rewrite app_nil_r. Qed.

Lemma extends_trans w1 w2 w3 : extends w1 w2 → extends w2 w3 → extends w1 w3.
Proof.
  intros [evs1 H1] [evs2 H2]. exists (evs1 ++ evs2). by rewrite H2, H1, app_assoc.
Qed.

Lemma monotone_ret {A} (a : A) : monotone (mret a).
Proof. intros w. apply extends_refl. Qed.

Lemma monotone_bind {A B} (m : IO A) (f : A → IO B) :
  monotone m → (∀ a, monotone (f a)) → monotone (m ≫= f).
Proof.
  intros Hm Hf w. unfold mbind, IO_bind. specialize (Hm w).
  destruct (m w) as [[a|e] w1]; simpl in *; [|done].
  eapply extends_trans; [done | apply Hf].
Qed.

Lemma monotone_raise {A} e : monotone (@Sys.raise A e).
Proof. intros w. apply extends_refl. Qed.

Lemma monotone_lift {A} (r : result A) : monotone (Sys.lift r).
Proof. intros w. apply extends_refl. Qed.

Lemma monotone_inspect {A} (f : world → result A) : monotone (Sys.inspect f).
Proof. intros w. apply extends_refl. Qed.

Lemma monotone_record ev : monotone (Sys.record ev).
Proof. intros w. by exists [ev]. Qed.

#[export] Hint Resolve monotone_ret monotone_raise monotone_lift
  monotone_inspect monotone_record : io.

Lemma monotone_getenv name : monotone (Sys.getenv name).
Proof. apply monotone_bind; auto with io. Qed.

Lemma monotone_http_get url headers : monotone (Sys.http_get url headers).
Proof. apply monotone_bind; auto with io. Qed.

Lemma monotone_print line : monotone (Sys.print line).
Proof. apply monotone_record. Qed.

Lemma monotone_read_file path : monotone (Sys.read_file path).
Proof. apply monotone_bind; auto with io. Qed.

Lemma monotone_write_file path content : monotone (Sys.write_file path content).
Proof.
  apply monotone_bind; auto with io.
  intros _ w. exists []. simpl. by rewrite app_nil_r.
Qed.

Lemma monotone_smtp c : monotone (Sys.smtp c).
Proof. apply monotone_bind; auto with io. Qed.

Lemma monotone_except_file_not_found {A} (m handler : IO A) :
  monotone m → monotone handler → monotone (Sys.except_file_not_found m handler).
Proof.
  intros Hm Hh w. unfold Sys.except_file_not_found. specialize (Hm w).
  destruct (m w) as [[a|[]] w1]; simpl in *; try done.
  eapply extends_trans; [done | apply Hh].
Qed.

Lemma monotone_finally_quit {A} (block : IO A) :
  monotone block → monotone (Sys.finally_quit block).
Proof.
  intros Hb w. unfold Sys.finally_quit. specialize (Hb w).
  destruct (block w) as [r w1].
  pose proof (monotone_smtp SmtpQuit w1) as Hq.
  destruct (Sys.smtp SmtpQuit w1) as [[u|e] w2];
    eapply extends_trans; [exact Hb | exact Hq | exact Hb | exact Hq].
Qed.

Lemma monotone_with_smtp {A} host port (block : IO A) :
  monotone block → monotone (Sys.with_smtp host port block).
Proof.
  intros Hb. apply monotone_bind; [apply monotone_smtp|].
  intros _. by apply monotone_finally_quit.
Qed.

#[export] Hint Resolve monotone_getenv monotone_http_get monotone_print
  monotone_read_file monotone_write_file monotone_smtp : io.

Ltac monotone :=
  repeat first
    [ progress auto with io
    | apply monotone_bind; [|intros ?]
    | apply monotone_with_smtp
    | apply monotone_finally_quit
    | apply monotone_except_file_not_found
    | progress cbv zeta ].

Lemma monotone_call_job_listing_api `{JsonCodec} url headers :
  monotone (call_job_listing_api url headers).
Proof.
  unfold call_job_listing_api. apply monotone_bind; [auto with io|].
  intros response. case_bool_decide; monotone.
Qed.

Lemma monotone_load_jobs `{JsonCodec} filepath : monotone (load_jobs filepath).
Proof. unfold load_jobs. monotone. Qed.

Lemma monotone_save_jobs `{JsonCodec} jobs filepath :
  monotone (save_jobs jobs filepath).
Proof. unfold save_jobs. monotone. Qed.

Lemma monotone_send_email_notification `{ValueFormat} jobs :
  monotone (send_email_notification jobs).
Proof. destruct jobs; simpl; monotone. Qed.

Lemma getenv_trace name w :
  trace (Sys.getenv name w).2 = trace w ++ [EvEnviron name].
Proof.
  unfold Sys.getenv, Sys.record, Sys.update, Sys.inspect, mbind, IO_bind. simpl.
  by destruct (environ w !! name).
Qed.

(** With at least one job to announce the notifier starts by reading
    [MAIL_SENDER], whatever happens next. *)
Lemma send_email_notification_reads_environment `{ValueFormat} job jobs w :
  ∃ evs,
    trace (send_email_notification (job :: jobs) w).2
    = trace w ++ EvEnviron "MAIL_SENDER" :: evs.
Proof.
  cbn [send_email_notification].
  unfold mbind at 1, IO_bind.
  pose proof (getenv_trace "MAIL_SENDER" w) as Hw1.
  destruct (Sys.getenv "MAIL_SENDER" w) as [[sender|e] w1]; simpl in Hw1.
  - match goal with
    | |- ∃ _, trace (?k w1).2 = _ =>
        assert (monotone k) as Hk by monotone;
        destruct (Hk w1) as [evs Hevs]
    end.
    exists evs. by rewrite Hevs, Hw1, <- app_assoc.
  - by exists [].
Qed.

(** ** The reference [str.lower] and letter case *)

Lemma lower_ascii_code (c : Ascii.ascii) :
  Ascii.N_of_ascii (Reference.lower_ascii c)
  = let n := Ascii.N_of_ascii c in
    if (65 <=? n)%N && (n <=? 90)%N then (n + 32)%N else n.
Proof.
  unfold Reference.lower_ascii. simpl.
  destruct (65 <=? Ascii.N_of_ascii c)%N eqn:H1,
           (Ascii.N_of_ascii c <=? 90)%N eqn:H2; simpl; try done.
  apply Ascii.N_ascii_embedding. apply N.leb_le in H2. lia.
Qed.

Lemma lower_ascii_eq (a b : Ascii.ascii) :
  Reference.lower_ascii a = Reference.lower_ascii b ↔ Reference.same_letter a b.
Proof.
  transitivity (Ascii.N_of_ascii (Reference.lower_ascii a)
                = Ascii.N_of_ascii (Reference.lower_ascii b)).
  { split; [by intros -> |]. intros Hcode.
    apply (f_equal Ascii.ascii_of_N) in Hcode.
    by rewrite !Ascii.ascii_N_embedding in Hcode. }
  rewrite !lower_ascii_code. unfold Reference.same_letter. simpl.
  destruct (65 <=? Ascii.N_of_ascii a)%N eqn:Ha1,
           (Ascii.N_of_ascii a <=? 90)%N eqn:Ha2,
           (65 <=? Ascii.N_of_ascii b)%N eqn:Hb1,
           (Ascii.N_of_ascii b <=? 90)%N eqn:Hb2; simpl;
    rewrite ?N.leb_le, ?N.leb_gt in *; lia.
Qed.

Lemma lower_string_eq (s t : string) :
  Reference.lower_string s = Reference.lower_string t
  ↔ Reference.equal_ignoring_case s t.
Proof.
  revert t. induction s as [|a s IH]; intros [|b t]; simpl; try done.
  rewrite <- IH, <- lower_ascii_eq. split; [by intros [= -> ->] | by intros [-> ->]].
Qed.

Lemma lower_string_app (s t : string) :
  Reference.lower_string (s +:+ t)
  = Reference.lower_string s +:+ Reference.lower_string t.
Proof. induction s as [|a s IH]; simpl; [done | by rewrite IH]. Qed.

Lemma lower_string_app_inv (t p q : string) :
  Reference.lower_string t = p +:+ q →
  ∃ t1 t2, t = t1 +:+ t2 ∧
           Reference.lower_string t1 = p ∧ Reference.lower_string t2 = q.
Proof.
  revert t. induction p as [|c p IH]; intros t; simpl.
  - intros Ht. by exists "", t.
  - destruct t as [|a t]; simpl; [done|]. intros [= Ha Ht].
    destruct (IH t Ht) as (t1 & t2 & -> & <- & <-).
    exists (String a t1), t2. by rewrite <- Ha.
Qed.

(** With the reference [str.lower], a word is a case-insensitive substring
    of a text exactly when some substring of the text is the word up to the
    case of its ASCII letters. *)
Lemma ci_substring_ascii (word text : string) :
  @ci_substring Reference.ascii_lower word text
  ↔ ∃ pre mid post,
      text = pre +:+ mid +:+ post ∧ Reference.equal_ignoring_case word mid.
Proof.
  unfold ci_substring, str_lower, Reference.ascii_lower. split.
  - intros (p & s & Htext).
    apply lower_string_app_inv in Htext as (pre & rest & -> & _ & Hrest).
    apply lower_string_app_inv in Hrest as (mid & post & -> & Hmid & _).
    exists pre, mid, post. split; [done|]. by apply lower_string_eq.
  - intros (pre & mid & post & -> & Hmid).
    exists (Reference.lower_string pre), (Reference.lower_string post).
    rewrite !lower_string_app. by apply lower_string_eq in Hmid as ->.
Qed.

(** ** The reference JSON codec on job records *)

Section codec.
Import Reference.

Lemma parse_text_escape (c : Ascii.ascii) (tail : string) :
  parse_text (escape c +:+ tail)
  = '(t, r) ← parse_text tail; Some (String c t, r).
Proof. destruct c as [[] [] [] [] [] [] [] []]; reflexivity. Qed.

Lemma parse_text_quoted (s rest : string) :
  parse_text (escape_onto s (String quote rest)) = Some (s, rest).
Proof.
  induction s as [|c s IH]; [done|].
  cbn [escape_onto]. by rewrite parse_text_escape, IH.
Qed.

Lemma parse_value_space fuel tail :
  parse_value fuel (" " +:+ tail) = parse_value fuel tail.
Proof. by destruct fuel. Qed.

Lemma parse_value_string fuel s rest :
  parse_value (S fuel) (quoted_onto s rest) = Some (PStr s, rest).
Proof.
  change (parse_value (S fuel) (quoted_onto s rest))
    with ('(t, r) ← parse_text (escape_onto s (String quote rest)); Some (PStr t, r)).
  by rewrite parse_text_quoted.
Qed.

Lemma parse_members_space value n tail :
  parse_members value n (" " +:+ tail) = parse_members value n tail.
Proof. by destruct n. Qed.

Lemma parse_members_more value n k x tail rest :
  value (" " +:+ tail) = Some (x, ", " +:+ rest) →
  parse_members value (S n) (quoted_onto k (": " +:+ tail))
  = '(d, r) ← parse_members value n rest; Some (<[k := x]> d, r).
Proof.
  intros Hvalue.
  change (parse_members value (S n) (quoted_onto k (": " +:+ tail)))
    with ('(k', s1) ← parse_text (escape_onto k (String quote (": " +:+ tail)));
          match skip_spaces s1 with
          | String colon s2 =>
              if bool_decide (colon = Ascii.ascii_of_N 58) then
                '(v, s3) ← value s2;
                match skip_spaces s3 with
                | String c s4 =>
                    if bool_decide (c = Ascii.ascii_of_N 44) then
                      '(d, s5) ← parse_members value n s4;
                      Some (<[k' := v]> d, s5)
                    else if bool_decide (c = Ascii.ascii_of_N 125)
                    then Some ({[k' := v]}, s4)
                    else None
                | "" => None
                end
              else None
          | "" => None
          end).
  rewrite parse_text_quoted. cbn [mbind option_bind]. 
  change (skip_spaces (": " +:+ tail)) with (String (Ascii.ascii_of_N 58) (" " +:+ tail)).
  cbv iota. rewrite bool_decide_eq_true_2 by done.
  rewrite Hvalue. cbn [mbind option_bind].
  change (skip_spaces (", " +:+ rest))
    with (String (Ascii.ascii_of_N 44) (" " +:+ rest)).
  cbv iota. rewrite bool_decide_eq_true_2 by done.
  by rewrite parse_members_space.
Qed.

Lemma parse_members_last value n k x tail rest :
  value (" " +:+ tail) = Some (x, "}" +:+ rest) →
  parse_members value (S n) (quoted_onto k (": " +:+ tail))
  = Some ({[k := x]}, rest).
Proof.
  intros Hvalue.
  change (parse_members value (S n) (quoted_onto k (": " +:+ tail)))
    with ('(k', s1) ← parse_text (escape_onto k (String quote (": " +:+ tail)));
          match skip_spaces s1 with
          | String colon s2 =>
              if bool_decide (colon = Ascii.ascii_of_N 58) then
                '(v, s3) ← value s2;
                match skip_spaces s3 with
                | String c s4 =>
                    if bool_decide (c = Ascii.ascii_of_N 44) then
                      '(d, s5) ← parse_members value n s4;
                      Some (<[k' := v]> d, s5)
                    else if bool_decide (c = Ascii.ascii_of_N 125)
                    then Some ({[k' := v]}, s4)
                    else None
                | "" => None
                end
              else None
          | "" => None
          end).
  rewrite parse_text_quoted. cbn [mbind option_bind].
  change (skip_spaces (": " +:+ tail)) with (String (Ascii.ascii_of_N 58) (" " +:+ tail)).
  cbv iota. rewrite bool_decide_eq_true_2 by done.
  rewrite Hvalue. cbn [mbind option_bind].
  change (skip_spaces ("}" +:+ rest)) with (String (Ascii.ascii_of_N 125) rest).
  cbv iota. rewrite bool_decide_eq_false_2 by done.
  by rewrite bool_decide_eq_true_2 by done.
Qed.

Lemma parse_value_string_after_space fuel s rest :
  parse_value (S fuel) (" " +:+ quoted_onto s rest) = Some (PStr s, rest).
Proof. by rewrite parse_value_space, parse_value_string. Qed.

Lemma write_record (j : JobListing) (rest : string) :
  write (to_dict j) rest
  = "{" +:+ quoted_onto "firm" (": " +:+
      quoted_onto (employer j) (", " +:+
        quoted_onto "location" (": " +:+
          quoted_onto (location j) (", " +:+
            quoted_onto "link" (": " +:+
              quoted_onto (link j) (", " +:+
                quoted_onto "title" (": " +:+
                  quoted_onto (title j) ("}" +:+ rest)))))))).
Proof. destruct j. reflexivity. Qed.

Lemma parse_value_object fuel k tail :
  parse_value (S fuel) ("{" +:+ quoted_onto k tail)
  = '(d, r) ← parse_members (parse_value fuel) fuel (quoted_onto k tail);
    Some (PDict d, r).
Proof. reflexivity. Qed.

Lemma parse_record (fuel : nat) (j : JobListing) (rest : string) :
  parse_value (5 + fuel) (write (to_dict j) rest) = Some (to_dict j, rest).
Proof.
  rewrite write_record. cbn [Nat.add]. rewrite parse_value_object.
  do 3 (erewrite parse_members_more by apply parse_value_string_after_space).
  erewrite parse_members_last by apply parse_value_string_after_space.
  cbn [mbind option_bind]. by destruct j.
Qed.

Lemma write_list (X : list JobListing) (rest : string) :
  write (PList (to_dict <$> X)) rest = "[" +:+ record_items X rest.
Proof.
  induction X as [|j X IH]; [done|]. destruct X as [|j' X]; [done|].
  change (write (PList (to_dict <$> j :: j' :: X)) rest)
    with ("[" +:+ write (to_dict j)
                    (", " +:+ drop_chars 1 (write (PList (to_dict <$> j' :: X)) rest))).
  by rewrite IH.
Qed.

Lemma parse_elements_space fuel n tail :
  parse_elements (parse_value fuel) n (" " +:+ tail)
  = parse_elements (parse_value fuel) n tail.
Proof. destruct n; [done|]. cbn [parse_elements]. by rewrite parse_value_space. Qed.

Lemma parse_elements_records fuel n (X : list JobListing) rest :
  X ≠ [] → length X ≤ n →
  parse_elements (parse_value (5 + fuel)) n (record_items X rest)
  = Some (to_dict <$> X, rest).
Proof.
  revert n. induction X as [|j X IH]; [done|]. intros n _ Hn.
  destruct n as [|n]; [simpl in Hn; lia|]. simpl in Hn.
  destruct X as [|j' X].
  - cbn [record_items parse_elements]. rewrite parse_record.
    cbn [mbind option_bind].
    change (skip_spaces ("]" +:+ rest)) with (String (Ascii.ascii_of_N 93) rest).
    cbv iota. rewrite bool_decide_eq_false_2 by done.
    by rewrite bool_decide_eq_true_2 by done.
  - change (record_items (j :: j' :: X) rest)
      with (write (to_dict j) (", " +:+ record_items (j' :: X) rest)).
    cbn [parse_elements]. rewrite parse_record. cbn [mbind option_bind].
    change (skip_spaces (", " +:+ record_items (j' :: X) rest))
      with (String (Ascii.ascii_of_N 44) (" " +:+ record_items (j' :: X) rest)).
    cbv iota. rewrite bool_decide_eq_true_2 by done.
    rewrite parse_elements_space, IH by (done || lia). done.
Qed.
Lemma length_app (s t : string) :
  String.length (s +:+ t) = String.length s + String.length t.
Proof.
  induction s as [|a s IH]; [done|].
  change (String a s +:+ t) with (String a (s +:+ t)). simpl. by rewrite IH.
Qed.

Lemma length_escape_onto (s rest : string) :
  String.length rest ≤ String.length (escape_onto s rest).
Proof.
  induction s as [|c s IH]; [done|].
  cbn [escape_onto]. rewrite length_app. lia.
Qed.

Lemma length_after (p r : string) (n : nat) :
  n ≤ String.length r → n ≤ String.length (p +:+ r).
Proof. rewrite length_app. lia. Qed.

Lemma length_quoted_onto (s r : string) (n : nat) :
  n ≤ String.length r → 2 + n ≤ String.length (quoted_onto s r).
Proof.
  intros Hn. unfold quoted_onto.
  pose proof (length_escape_onto s (String quote r)) as Hs.
  cbn [String.length] in *. lia.
Qed.

Lemma length_write_record (j : JobListing) (rest : string) :
  6 + String.length rest ≤ String.length (write (to_dict j) rest).
Proof.
  rewrite write_record. apply length_after.
  do 3 (apply (length_quoted_onto _ _ _), length_after).
  repeat first [ apply length_after
               | apply Nat.lt_le_incl, Nat.lt_le_incl, (length_quoted_onto _ _ _) ].
  done.
Qed.

Lemma length_record_items (X : list JobListing) (rest : string) :
  X ≠ [] → 6 * length X ≤ String.length (record_items X rest).
Proof.
  induction X as [|j X IH]; [done|]. intros _. destruct X as [|j' X].
  - cbn [record_items]. pose proof (length_write_record j ("]" +:+ rest)).
    cbn [length]. lia.
  - change (record_items (j :: j' :: X) rest)
      with (write (to_dict j) (", " +:+ record_items (j' :: X) rest)).
    pose proof (length_write_record j (", " +:+ record_items (j' :: X) rest)) as Hj.
    rewrite length_app in Hj. specialize (IH ltac:(done)).
    cbn [length] in *. lia.
Qed.

Lemma parse_value_array fuel tail :
  parse_value (S fuel) ("[" +:+ ("{" +:+ tail))
  = '(vs, r) ← parse_elements (parse_value fuel) fuel ("{" +:+ tail);
    Some (PList vs, r).
Proof. reflexivity. Qed.

Lemma record_items_head (j : JobListing) (X : list JobListing) (rest : string) :
  ∃ tail, record_items (j :: X) rest = "{" +:+ tail.
Proof.
  destruct X as [|j' X].
  - cbn [record_items]. rewrite write_record. eauto.
  - change (record_items (j :: j' :: X) rest)
      with (write (to_dict j) (", " +:+ record_items (j' :: X) rest)).
    rewrite write_record. eauto.
Qed.

(** The reference codec reads back every list of job records it writes. *)
Lemma loads_dumps_records (X : list JobListing) :
  loads (dumps (PList (to_dict <$> X))) = Some (PList (to_dict <$> X)).
Proof.
  destruct X as [|j X]; [done|].
  unfold loads, dumps. rewrite write_list.
  pose proof (length_record_items (j :: X) "" ltac:(done)) as Hlen.
  destruct (record_items_head j X "") as [tail Htail].
  remember (String.length ("[" +:+ record_items (j :: X) "")) as F eqn:HF.
  rewrite length_app in HF. cbn [length String.length] in *.
  rewrite Htail, parse_value_array, <- Htail.
  replace F with (5 + (F - 5)) at 1 by lia.
  rewrite parse_elements_records by (done || cbn [length]; lia).
  done.
Qed.
End codec.

(** With the reference codec the round trip needs no assumption. *)
Lemma save_then_load_reference (X : list JobListing) filepath w :
  (@load_jobs Reference.json filepath
     (@save_jobs Reference.json (to_dict <$> X) filepath w).2).1
  = Ok (PList (to_dict <$> X)).
Proof.
  unfold load_jobs, save_jobs, Sys.except_file_not_found.
  unfold Sys.read_file, Sys.write_file, Sys.inspect, Sys.record, Sys.update.
  unfold mbind, IO_bind, Sys.lift, json_value. simpl.
  rewrite lookup_insert_eq.
  by rewrite (loads_dumps_records X).
Qed.

(* ================================================================= *)
(** * Worked scenarios *)

Section scenarios.
Local Existing Instance Reference.ascii_lower.
Local Existing Instance Reference.json.

(** keywords ["engineer"], locations ["remote"]: the engineer is kept and the
    sales representative is not. *)
Example filter_scenario :
  filter_jobs (to_dict <$> [Reference.engineer; Reference.sales])
              ["engineer"] ["remote"]
  = Ok [to_dict Reference.engineer].
Proof. vm_compute. reflexivity. Qed.

Example filter_ignores_case :
  filter_jobs (to_dict <$> [Reference.engineer; Reference.sales])
              ["SALES"; "manager"] ["Berlin"; "REMOTE"]
  = Ok [to_dict Reference.sales].
Proof. vm_compute. reflexivity. Qed.

(** Dictionaries that are not job records: a missing title is a [KeyError]
    as soon as there is a keyword to look for, a title that is not a string
    an [AttributeError]. *)
Example filter_missing_title :
  filter_jobs [PDict ∅] ["engineer"] [] = Raise (KeyError "title") ∧
  filter_jobs [PDict ∅] [] ["remote"] = Ok [].
Proof. split; reflexivity. Qed.

Example filter_null_title :
  filter_jobs [PDict {[ "title" := PNone; "location" := PStr "Remote" ]}]
              ["engineer"] ["remote"]
  = Raise AttributeError.
Proof. reflexivity. Qed.

(** The store holds one listing; the scrape finds it again with a new one. *)
Example diff_scenario :
  identify_new_jobs (to_dict <$> [Reference.engineer; Reference.sales])
                    (to_dict <$> [Reference.engineer])
  = [to_dict Reference.sales].
Proof. vm_compute. reflexivity. Qed.

Example true_equals_one : Py.eqb (PBool true) (PInt 1) = true.
Proof. reflexivity. Qed.

(** The API answers with an object whose ["results"] is the listing array. *)
Example api_scenario :
  (call_job_listing_api "https://acme.example/api" ∅ Reference.online).1
  = Ok (PDict Reference.api_payload) ∧
  process_api_response (PDict Reference.api_payload) "Acme" Reference.api_params
  = Ok (to_dict <$> [Reference.engineer; Reference.sales]).
Proof. split; vm_compute; reflexivity. Qed.

Example api_failure_scenario :
  call_job_listing_api "https://acme.example/api" ∅ Reference.offline
  = (Ok PNone,
     {| environ := ∅; files := ∅;
        network := network Reference.offline;
        smtp_accepts := smtp_accepts Reference.offline;
        trace := [ EvHttpGet "https://acme.example/api" ∅;
                   EvPrint "Failed to fetch data. HTTP Status Code: 404" ] |}).
Proof. vm_compute. reflexivity. Qed.

Lemma save_then_load_witness :
  json_loads (json_dumps (PList (to_dict <$> [Reference.engineer; Reference.sales])))
  = Some (PList (to_dict <$> [Reference.engineer; Reference.sales])) ∧
  (save_jobs (to_dict <$> [Reference.engineer; Reference.sales])
             "jobs.json" Reference.offline).1 = Ok () ∧
  (load_jobs "jobs.json"
     (save_jobs (to_dict <$> [Reference.engineer; Reference.sales])
                "jobs.json" Reference.offline).2).1
  = Ok (PList (to_dict <$> [Reference.engineer; Reference.sales])).
Proof.
  assert (Hcodec :
    json_loads (json_dumps (PList (to_dict <$> [Reference.engineer; Reference.sales])))
    = Some (PList (to_dict <$> [Reference.engineer; Reference.sales])))
    by (vm_compute; reflexivity).
  split; [exact Hcodec|].
  exact (save_then_load [Reference.engineer; Reference.sales]
                        "jobs.json" Reference.offline Hcodec).
Defined.

Lemma load_jobs_missing_file_witness :
  files Reference.offline !! "jobs.json" = None ∧
  (load_jobs "jobs.json" Reference.offline).1 = Ok (PList []).
Proof.
  split; [reflexivity|].
  apply (load_jobs_missing_file "jobs.json" Reference.offline). reflexivity.
Defined.

Lemma failed_request_breaks_normaliser_witness :
  (call_job_listing_api "https://acme.example/api" ∅ Reference.offline).1
  = Ok PNone ∧
  ((data ← call_job_listing_api "https://acme.example/api" ∅;
    Sys.lift (process_api_response data "Acme" Reference.api_params))
     Reference.offline).1
  = Raise TypeError.
Proof.
  apply (failed_request_breaks_normaliser
           "https://acme.example/api" ∅ "Acme" Reference.api_params
           Reference.offline {| status_code := 404; body := "Not Found" |}).
  - reflexivity.
  - simpl. lia.
Defined.

Lemma process_api_response_descends_witness :
  process_api_response (PDict Reference.api_payload) "Acme" Reference.api_params
  = process_api_response
      (PList [PDict (Reference.api_element Reference.engineer);
              PDict (Reference.api_element Reference.sales)])
      "Acme" Reference.api_params ∧
  ∃ records,
    process_api_response
      (PList (PDict <$> [Reference.api_element Reference.engineer;
                         Reference.api_element Reference.sales]))
      "Acme" Reference.api_params
    = Ok (PDict <$> records) ∧
    Forall2 (mapped "Acme" "name" "where" "url")
            [Reference.api_element Reference.engineer;
             Reference.api_element Reference.sales] records.
Proof.
  split.
  - apply (proj1 process_api_response_descends
             "Acme" Reference.api_params "results" Reference.api_payload).
    + reflexivity.
    + reflexivity.
  - apply (proj2 process_api_response_descends
             "Acme" Reference.api_params "name" "where" "url").
    + reflexivity.
    + reflexivity.
    + reflexivity.
    + repeat constructor; (eexists; reflexivity).
Defined.

End scenarios.

Section notifier_scenarios.
Context `{ValueFormat}.

(** One listing to announce, in a world where the mail settings are present
    and the server accepts everything. *)
Example notify_scenario :
  let msg := {| msg_body := "Acme - Software Engineer - Remote, US"
                            +:+ newline +:+ "https://acme.example/1";
                msg_subject := "New MLE Job Openings";
                msg_from := "me@example.org";
                msg_to := "you@example.org" |} in
  (send_email_notification [to_dict Reference.engineer] Reference.online).1 = Ok () ∧
  trace (send_email_notification [to_dict Reference.engineer] Reference.online).2
  = [ EvEnviron "MAIL_SENDER"; EvEnviron "MAIL_RECIPIENT";
      EvEnviron "MAIL_HOST"; EvEnviron "MAIL_PORT";
      EvSmtp (SmtpConnect "smtp.example.org" "587");
      EvSmtp SmtpStartTls;
      EvEnviron "MAIL_PASSWORD";
      EvSmtp (SmtpLogin "me@example.org" "secret");
      EvSmtp (SmtpSendMessage msg);
      EvSmtp SmtpQuit ].
Proof. split; vm_compute; reflexivity. Qed.

(** Without the settings the first read of the environment raises. *)
Example notify_without_settings :
  send_email_notification [to_dict Reference.engineer] Reference.offline
  = (Raise (KeyError "MAIL_SENDER"),
     {| environ := ∅; files := ∅;
        network := network Reference.offline;
        smtp_accepts := smtp_accepts Reference.offline;
        trace := [EvEnviron "MAIL_SENDER"] |}).
Proof. vm_compute. reflexivity. Qed.

End notifier_scenarios.

(* ================================================================= *)
(** * Further properties *)

(** ** Running a computation step by step *)

Lemma bind_ok {A B} (m : IO A) (f : A → IO B) w a w1 :
  m w = (Ok a, w1) → (m ≫= f) w = f a w1.
Proof. intros Hm. unfold mbind, IO_bind. by rewrite Hm. Qed.

Lemma bind_raise {A B} (m : IO A) (f : A → IO B) w e w1 :
  m w = (Raise e, w1) → (m ≫= f) w = (Raise e, w1).
Proof. intros Hm. unfold mbind, IO_bind. by rewrite Hm. Qed.

Lemma bind_lift_ok {A B} (r : result A) (f : A → IO B) w a :
  r = Ok a → (Sys.lift r ≫= f) w = f a w.
Proof. intros ->. done. Qed.

Lemma bind_lift_raise {A B} (r : result A) (f : A → IO B) w e :
  r = Raise e → (Sys.lift r ≫= f) w = (Raise e, w).
Proof. intros ->. done. Qed.

(** ** What a computation leaves alone *)

Create HintDb ro discriminated.

Lemma same_resources_refl w : same_resources w w.
Proof. by repeat split. Qed.

Lemma same_resources_trans w1 w2 w3 :
  same_resources w1 w2 → same_resources w2 w3 → same_resources w1 w3.
Proof.
  intros (? & ? & ? & ?) (? & ? & ? & ?). repeat split; congruence.
Qed.

Lemma readonly_ret {A} (a : A) : readonly (mret a).
Proof. intros w. apply same_resources_refl. Qed.

Lemma readonly_bind {A B} (m : IO A) (f : A → IO B) :
  readonly m → (∀ a, readonly (f a)) → readonly (m ≫= f).
Proof.
  intros Hm Hf w. unfold mbind, IO_bind. specialize (Hm w).
  destruct (m w) as [[a|e] w1]; [|done].
  eapply same_resources_trans; [exact Hm | apply Hf].
Qed.

Lemma readonly_lift {A} (r : result A) : readonly (Sys.lift r).
Proof. intros w. apply same_resources_refl. Qed.

Lemma readonly_inspect {A} (f : world → result A) : readonly (Sys.inspect f).
Proof. intros w. apply same_resources_refl. Qed.

Lemma readonly_record ev : readonly (Sys.record ev).
Proof. intros w. by repeat split. Qed.

#[export] Hint Resolve readonly_ret readonly_lift readonly_inspect
  readonly_record : ro.

Lemma readonly_getenv name : readonly (Sys.getenv name).
Proof. apply readonly_bind; auto with ro. Qed.

Lemma readonly_http_get url headers : readonly (Sys.http_get url headers).
Proof. apply readonly_bind; auto with ro. Qed.

Lemma readonly_print line : readonly (Sys.print line).
Proof. apply readonly_record. Qed.

Lemma readonly_read_file path : readonly (Sys.read_file path).
Proof. apply readonly_bind; auto with ro. Qed.

Lemma readonly_smtp c : readonly (Sys.smtp c).
Proof. apply readonly_bind; auto with ro. Qed.

Lemma readonly_except_file_not_found {A} (m handler : IO A) :
  readonly m → readonly handler → readonly (Sys.except_file_not_found m handler).
Proof.
  intros Hm Hh w. unfold Sys.except_file_not_found. specialize (Hm w).
  destruct (m w) as [[a|[]] w1]; try done.
  eapply same_resources_trans; [exact Hm | apply Hh].
Qed.

Lemma readonly_finally_quit {A} (block : IO A) :
  readonly block → readonly (Sys.finally_quit block).
Proof.
  intros Hb w. unfold Sys.finally_quit. specialize (Hb w).
  destruct (block w) as [r w1].
  pose proof (readonly_smtp SmtpQuit w1) as Hq.
  destruct (Sys.smtp SmtpQuit w1) as [[u|e] w2];
    eapply same_resources_trans; [exact Hb | exact Hq | exact Hb | exact Hq].
Qed.

Lemma readonly_with_smtp {A} host port (block : IO A) :
  readonly block → readonly (Sys.with_smtp host port block).
Proof.
  intros Hb. apply readonly_bind; [apply readonly_smtp|].
  intros _. by apply readonly_finally_quit.
Qed.

#[export] Hint Resolve readonly_getenv readonly_http_get readonly_print
  readonly_read_file readonly_smtp : ro.

Ltac readonly :=
  repeat first
    [ progress auto with ro
    | apply readonly_bind; [|intros ?]
    | apply readonly_with_smtp
    | apply readonly_finally_quit
    | apply readonly_except_file_not_found
    | progress cbv zeta ].

Lemma readonly_call_job_listing_api `{JsonCodec} url headers :
  readonly (call_job_listing_api url headers).
Proof.
  unfold call_job_listing_api. apply readonly_bind; [auto with ro|].
  intros response. case_bool_decide; readonly.
Qed.

Lemma readonly_load_jobs `{JsonCodec} filepath : readonly (load_jobs filepath).
Proof. unfold load_jobs. readonly. Qed.

Lemma readonly_send_email_notification `{ValueFormat} jobs :
  readonly (send_email_notification jobs).
Proof. destruct jobs; simpl; readonly. Qed.

Lemma readonly_scrape_job_listings `{Soup} firm_name params :
  readonly (scrape_job_listings firm_name params).
Proof. unfold scrape_job_listings. readonly. Qed.

Lemma readonly_gather {T} (step : T → IO (list pyval)) targets all_jobs :
  (∀ t, readonly (step t)) → readonly (gather step targets all_jobs).
Proof.
  intros Hstep. revert all_jobs.
  induction targets as [|t targets IH]; intros all_jobs; simpl; [auto with ro|].
  apply readonly_bind; [apply Hstep | intros jobs; apply IH].
Qed.

Lemma readonly_soup_step `{StrLower} `{Soup} keywords locations target :
  readonly (soup_step keywords locations target).
Proof.
  unfold soup_step. apply readonly_bind; [apply readonly_scrape_job_listings|].
  intros jobs. auto with ro.
Qed.

Lemma readonly_api_step `{StrLower} `{JsonCodec} keywords locations target :
  readonly (api_step keywords locations target).
Proof.
  unfold api_step.
  repeat first [ apply readonly_call_job_listing_api
               | progress auto with ro
               | apply readonly_bind; [|intros ?] ].
Qed.

(** ** More on [identify_new_jobs] *)

Lemma mem_app (x : pyval) (l1 l2 : list pyval) :
  Py.mem x (l1 ++ l2) = Py.mem x l1 || Py.mem x l2.
Proof. unfold Py.mem. apply existsb_app. Qed.

Lemma mem_self (x : pyval) (l : list pyval) : x ∈ l → Py.mem x l = true.
Proof.
  intros Hx. apply existsb_exists. exists x.
  split; [by apply list_elem_of_In | apply eqb_refl].
Qed.

Lemma identify_new_jobs_elem (job : pyval) (jobs seen : list pyval) :
  job ∈ identify_new_jobs jobs seen ↔ job ∈ jobs ∧ Py.mem job seen = false.
Proof.
  unfold identify_new_jobs. rewrite !list_elem_of_In, filter_In.
  by rewrite negb_true_iff.
Qed.

Lemma mem_after_append (job : pyval) (jobs seen : list pyval) :
  job ∈ jobs → Py.mem job (seen ++ identify_new_jobs jobs seen) = true.
Proof.
  intros Hjob. rewrite mem_app. destruct (Py.mem job seen) eqn:Hseen; [done|].
  simpl. apply mem_self. by apply identify_new_jobs_elem.
Qed.

Lemma filter_nothing {A} (p : A → bool) (l : list A) :
  (∀ x, x ∈ l → p x = false) → List.filter p l = [].
Proof.
  induction l as [|x l IH]; intros Hp; simpl; [done|].
  rewrite (Hp x) by left. apply IH. intros y Hy. apply Hp. by right.
Qed.

Lemma filter_sublist_impl {A} (p q : A → bool) (l : list A) :
  (∀ x, p x = true → q x = true) →
  List.filter p l `sublist_of` List.filter q l.
Proof.
  intros Hpq. induction l as [|x l IH]; simpl; [done|].
  destruct (p x) eqn:Hp.
  - rewrite (Hpq x Hp). by apply sublist_skip.
  - destruct (q x); [by apply sublist_cons | done].
Qed.

Lemma nothing_new_after_append (jobs seen : list pyval) :
  identify_new_jobs jobs (seen ++ identify_new_jobs jobs seen) = [].
Proof.
  unfold identify_new_jobs at 1. apply filter_nothing. intros job Hjob.
  by rewrite mem_after_append.
Qed.

(** X1. Once the new listings are appended to the seen ones, as the script
    does before saving, none of the current listings is new any more; this
    holds for any Python values. *)
Theorem identify_new_jobs_after_extend (jobs seen : list pyval) :
  identify_new_jobs jobs (seen ++ identify_new_jobs jobs seen) = [] ∧
  ∀ more, identify_new_jobs jobs ((seen ++ identify_new_jobs jobs seen) ++ more) = [].
Proof.
  split; [apply nothing_new_after_append|].
  intros more. unfold identify_new_jobs at 1. apply filter_nothing.
  intros job Hjob. by rewrite mem_app, mem_after_append.
Qed.

(** X2. A longer list of seen listings never makes more listings new: the
    diff against [seen ++ more] is a subsequence of the diff against
    [seen]. *)
Theorem identify_new_jobs_antitone (jobs seen more : list pyval) :
  identify_new_jobs jobs (seen ++ more)
    `sublist_of` identify_new_jobs jobs seen.
Proof.
  unfold identify_new_jobs. apply filter_sublist_impl. intros job.
  rewrite mem_app, !negb_true_iff, orb_false_iff. tauto.
Qed.

(** ** The end of the script: load, diff, notify, save *)

Section settle_properties.
Context `{StrLower} `{JsonCodec} `{ValueFormat} `{Soup}.

Lemma load_jobs_world filepath w :
  (load_jobs filepath w).2 = (Sys.record (EvRead filepath) w).2.
Proof.
  unfold load_jobs, Sys.except_file_not_found, Sys.read_file.
  unfold Sys.inspect, Sys.lift, json_value, mbind, IO_bind. simpl.
  destruct (files w !! filepath) as [content|]; simpl; [|done].
  by destruct (json_loads content).
Qed.

Lemma load_jobs_run filepath w :
  load_jobs filepath w
  = ((load_jobs filepath w).1, (Sys.record (EvRead filepath) w).2).
Proof. rewrite <- load_jobs_world. by destruct (load_jobs filepath w). Qed.

Lemma identify_loaded_list (jobs seen : list pyval) :
  identify_new_jobs_loaded jobs (PList seen) = Ok (identify_new_jobs jobs seen).
Proof.
  unfold identify_new_jobs_loaded, identify_new_jobs.
  rewrite <- (list_fmap_id jobs) at 1.
  rewrite (comprehension_total _ id (λ job, negb (Py.mem job seen))) by done.
  by rewrite list_fmap_id.
Qed.

(** The script after a store that holds a list. *)
Lemma settle_run (all_jobs seen : list pyval) w :
  (load_jobs "jobs.json" w).1 = Ok (PList seen) →
  settle all_jobs w
  = (match identify_new_jobs all_jobs seen with
     | [] => mret ()
     | _ :: _ => send_email_notification (identify_new_jobs all_jobs seen)
     end;;
     save_jobs (seen ++ identify_new_jobs all_jobs seen) "jobs.json")
      (Sys.record (EvRead "jobs.json") w).2.
Proof.
  intros Hload. unfold settle.
  rewrite (bind_ok _ _ w (PList seen) (Sys.record (EvRead "jobs.json") w).2)
    by (by rewrite load_jobs_run, Hload).
  by rewrite (bind_lift_ok _ _ _ _ (identify_loaded_list all_jobs seen)).
Qed.

Lemma settle_files (all_jobs seen : list pyval) w :
  (load_jobs "jobs.json" w).1 = Ok (PList seen) →
  (settle all_jobs w).1 = Ok () →
  files (settle all_jobs w).2
  = <["jobs.json" :=
        json_dumps (PList (seen ++ identify_new_jobs all_jobs seen))]> (files w).
Proof.
  intros Hload. rewrite (settle_run _ _ _ Hload).
  set (new_jobs := identify_new_jobs all_jobs seen).
  set (w0 := (Sys.record (EvRead "jobs.json") w).2).
  set (notify := match new_jobs with
                 | [] => mret ()
                 | _ :: _ => send_email_notification new_jobs
                 end).
  assert (readonly notify) as Hro.
  { unfold notify. destruct new_jobs;
      [apply readonly_ret | apply readonly_send_email_notification]. }
  unfold mbind at 1 2, IO_bind. specialize (Hro w0).
  destruct (notify w0) as [[u|e] w2]; [|done]. intros _.
  destruct Hro as (_ & Hfiles & _). simpl in *. by rewrite Hfiles.
Qed.



(** X5. Running the end of the script a second time on the same collected
    listings notifies nobody: provided the codec reads back the list that
    the first run saved, the second run succeeds, sends no SMTP command,
    reads no environment variable and leaves the files as the first run left
    them. *)
Theorem settle_twice_is_silent (all_jobs seen : list pyval) w :
  let stored := seen ++ identify_new_jobs all_jobs seen in
  let w1 := (settle all_jobs w).2 in
  (load_jobs "jobs.json" w).1 = Ok (PList seen) →
  (settle all_jobs w).1 = Ok () →
  json_loads (json_dumps (PList stored)) = Some (PList stored) →
  (settle all_jobs w1).1 = Ok () ∧
  trace (settle all_jobs w1).2
  = trace w1 ++ [ EvRead "jobs.json";
                  EvWrite "jobs.json" (json_dumps (PList stored)) ] ∧
  files (settle all_jobs w1).2 = files w1.
Proof.
  intros stored w1 Hload Hok Hcodec.
  pose proof (settle_files _ _ _ Hload Hok) as Hfiles. fold stored w1 in Hfiles.
  assert ((load_jobs "jobs.json" w1).1 = Ok (PList stored)) as Hload1.
  { unfold load_jobs, Sys.except_file_not_found, Sys.read_file.
    unfold Sys.inspect, Sys.lift, json_value, mbind, IO_bind. simpl.
    by rewrite Hfiles, lookup_insert_eq, Hcodec. }
  assert (identify_new_jobs all_jobs stored = []) as Hnone
    by apply nothing_new_after_append.
  rewrite (settle_run _ _ _ Hload1), Hnone, app_nil_r.
  split; [done|]. split.
  - simpl. by rewrite <- app_assoc.
  - simpl. rewrite Hfiles. apply insert_insert_eq.
Qed.

(** ** The script keeps to its store *)

Lemma readonly_guards_store {A} (m : IO A) : readonly m → guards_store m.
Proof.
  intros Hm w. destruct (Hm w) as (Henv & Hfiles & Hnet & Hsmtp).
  repeat split; try done; intros; by rewrite Hfiles.
Qed.

Lemma guards_store_bind {A B} (m : IO A) (f : A → IO B) :
  readonly m → (∀ a, guards_store (f a)) → guards_store (m ≫= f).
Proof.
  intros Hm Hf w. unfold mbind, IO_bind.
  destruct (Hm w) as (Henv & Hfiles & Hnet & Hsmtp).
  destruct (m w) as [[a|e] w1]; simpl in *;
    [|repeat split; intros; congruence].
  destruct (Hf a w1) as (Henv' & Hnet' & Hsmtp' & Hother & Hraise).
  repeat split; try congruence.
  - intros path Hpath. by rewrite Hother, Hfiles.
  - intros e He. by rewrite (Hraise e He).
Qed.

Lemma guards_store_save_jobs jobs : guards_store (save_jobs jobs "jobs.json").
Proof.
  intros w. repeat split; try done.
  intros path Hpath. simpl. by apply lookup_insert_ne.
Qed.

Lemma guards_store_settle all_jobs : guards_store (settle all_jobs).
Proof.
  unfold settle.
  apply guards_store_bind; [apply readonly_load_jobs | intros previous_jobs].
  apply guards_store_bind; [apply readonly_lift | intros new_jobs].
  apply guards_store_bind.
  { destruct new_jobs; [apply readonly_ret | apply readonly_send_email_notification]. }
  intros _. apply guards_store_bind; [apply readonly_lift | intros stored].
  apply guards_store_save_jobs.
Qed.

Lemma guards_store_main config : guards_store (main config).
Proof.
  unfold main.
  apply guards_store_bind; [apply readonly_lift | intros keywords].
  apply guards_store_bind; [apply readonly_lift | intros locations].
  apply guards_store_bind; [apply readonly_lift | intros soup_targets].
  apply guards_store_bind.
  { apply readonly_gather. intros t. apply readonly_soup_step. }
  intros all_jobs.
  apply guards_store_bind; [apply readonly_lift | intros api_targets].
  apply guards_store_bind.
  { apply readonly_gather. intros t. apply readonly_api_step. }
  intros all_jobs'. apply guards_store_settle.
Qed.

Lemma main_store_kept config w e :
  (main config w).1 = Raise e → files (main config w).2 = files w.
Proof.
  intros Hraise. destruct (guards_store_main config w) as (_ & _ & _ & _ & Hfail).
  by apply (Hfail e).
Qed.


(** X7. Whatever the configuration and the world, the script changes no
    file other than ["jobs.json"] and no environment variable. *)
Theorem main_touches_only_store config w path :
  path ≠ "jobs.json" →
  files (main config w).2 !! path = files w !! path ∧
  environ (main config w).2 = environ w.
Proof.
  intros Hpath. destruct (guards_store_main config w) as (Henv & _ & _ & Hother & _).
  split; [by apply Hother | done].
Qed.

End settle_properties.

(** ** [scrape_job_listings] *)

Lemma mapM_ok {A B} (f : A → result B) (l : list A) (out : list B) :
  Forall2 (λ x y, f x = Ok y) l out → mapM f l = Ok out.
Proof.
  induction 1 as [|x y l out Hx _ IH]; [done|].
  cbn [mapM]. rewrite Hx. cbn [mbind result_bind]. by rewrite IH.
Qed.

Lemma mapM_raise {A B} (f : A → result B) (good : list A) (bad : A)
    (rest : list A) (out : list B) (e : exn) :
  Forall2 (λ x y, f x = Ok y) good out →
  f bad = Raise e →
  mapM f (good ++ bad :: rest) = Raise e.
Proof.
  intros Hgood Hbad. induction Hgood as [|x y good out Hx _ IH].
  - cbn [app mapM]. by rewrite Hbad.
  - cbn [app mapM]. rewrite Hx. cbn [mbind result_bind]. by rewrite IH.
Qed.

Lemma mapM_inv {A B} (f : A → result B) (P : B → Prop) (l : list A)
    (out : list B) :
  (∀ x y, f x = Ok y → P y) → mapM f l = Ok out → Forall P out.
Proof.
  intros Hf. revert out. induction l as [|x l IH]; intros out.
  - intros [= <-]. constructor.
  - cbn [mapM]. destruct (f x) as [y|] eqn:Hx; [|done].
    cbn [mbind result_bind]. destruct (mapM f l) as [ys|]; [|done].
    intros [= <-]. constructor; [by eapply Hf | by apply IH].
Qed.

Section scraper_properties.
Context `{Soup}.

Lemma scrape_listing_shows firm_name params url job_tag job_attr
    title_tag title_class location_tag location_class container j :
  selectors params url job_tag job_attr title_tag title_class
            location_tag location_class →
  shows firm_name title_tag title_class location_tag location_class container j →
  scrape_listing firm_name params container = Ok (to_dict j).
Proof.
  intros (_ & _ & _ & Htt & Htc & Hlt & Hlc).
  intros (Hfirm & (tel & Htel & Htitle) & (lel & Hlel & Hlocation) & Hlink).
  unfold scrape_listing, Py.config. rewrite Htt, Htc, Hlt, Hlc. simpl.
  rewrite Htel, Hlel. simpl. unfold subscript.
  destruct (tag_anchor container) as [anchor|]; rewrite Hlink; simpl;
    by rewrite Htitle, Hlocation, <- Hfirm.
Qed.

Lemma scrape_listing_record firm_name params container job :
  scrape_listing firm_name params container = Ok job →
  ∃ j, job = to_dict j ∧ employer j = firm_name.
Proof.
  unfold scrape_listing.
  destruct (Py.config params "title_selector_tag") as [tt|]; [|done].
  destruct (Py.config params "title_selector_class") as [tc|]; [|done].
  simpl. destruct (found (tag_find container tt tc)) as [tel|]; [|done].
  simpl.
  destruct (Py.config params "location_selector_tag") as [lt|]; [|done].
  destruct (Py.config params "location_selector_class") as [lc|]; [|done].
  simpl. destruct (found (tag_find container lt lc)) as [lel|]; [|done].
  simpl.
  destruct (match tag_anchor container with
            | Some tag => subscript tag "href"
            | None => subscript container "href"
            end) as [href|]; [|done].
  simpl. intros [= <-].
  by exists {| employer := firm_name; title := tag_text tel;
               location := tag_text lel; link := href |}.
Qed.

Lemma scrape_job_listings_run firm_name params url job_tag job_attr
    title_tag title_class location_tag location_class w resp :
  selectors params url job_tag job_attr title_tag title_class
            location_tag location_class →
  network w url ∅ = Ok resp →
  scrape_job_listings firm_name params w
  = (mapM (scrape_listing firm_name params)
          (soup_find_all (body resp) job_tag job_attr),
     (Sys.record (EvHttpGet url ∅) w).2).
Proof.
  intros (Hurl & Hjt & Hja & _) Hnet.
  unfold scrape_job_listings, Py.config. rewrite Hurl, Hjt, Hja.
  unfold Sys.http_get, Sys.inspect, Sys.lift, mbind, IO_bind. simpl.
  by rewrite Hnet.
Qed.

(** X8. Whenever [scrape_job_listings] returns, what it returns are job
    records: dictionaries with exactly the four fields, all strings, whose
    employer is the firm name.  The filter and the diff engine are specified
    on such records. *)
Theorem scrape_job_listings_returns_records firm_name params w jobs :
  (scrape_job_listings firm_name params w).1 = Ok jobs →
  ∃ js, jobs = to_dict <$> js ∧ Forall (λ j, employer j = firm_name) js.
Proof.
  unfold scrape_job_listings.
  destruct (Py.config params "url") as [url|]; [|done].
  rewrite (bind_lift_ok _ _ _ url) by done.
  unfold mbind at 1, IO_bind.
  destruct (Sys.http_get url ∅ w) as [[response|e] w1]; [|done].
  destruct (Py.config params "job_selector_tag") as [job_tag|]; [|done].
  rewrite (bind_lift_ok _ _ _ job_tag) by done.
  destruct (Py.config params "job_selector_attr") as [job_attr|]; [|done].
  rewrite (bind_lift_ok _ _ _ job_attr) by done.
  unfold Sys.lift. simpl. intros Hjobs.
  apply (mapM_inv _ (λ job, ∃ j, job = to_dict j ∧ employer j = firm_name))
    in Hjobs; [|intros ??; apply scrape_listing_record].
  clear -Hjobs. induction Hjobs as [|job jobs (j & -> & Hj) _ (js & -> & Hjs)].
  - by exists [].
  - exists (j :: js). split; [done | by constructor].
Qed.

(** X9. With all selectors configured and the request answered, whatever
    its status, a page whose containers each show a listing is scraped to
    exactly these listings, one per container in page order; the link is the
    [href] of the container's first anchor, or the container's own when it
    has none.  One request is made, without headers, and nothing is
    printed. *)
Theorem scrape_job_listings_page firm_name params url job_tag job_attr
    title_tag title_class location_tag location_class w resp js :
  selectors params url job_tag job_attr title_tag title_class
            location_tag location_class →
  network w url ∅ = Ok resp →
  Forall2 (shows firm_name title_tag title_class location_tag location_class)
          (soup_find_all (body resp) job_tag job_attr) js →
  (scrape_job_listings firm_name params w).1 = Ok (to_dict <$> js) ∧
  trace (scrape_job_listings firm_name params w).2
  = trace w ++ [EvHttpGet url ∅].
Proof.
  intros Hsel Hnet Hshows.
  rewrite (scrape_job_listings_run _ _ _ _ _ _ _ _ _ _ _ Hsel Hnet).
  split; [|done]. simpl. apply mapM_ok.
  apply Forall2_fmap_r. eapply Forall2_impl; [exact Hshows|].
  intros container j Hj. by eapply scrape_listing_shows.
Qed.

(** X10. A container without the title element, or without the location
    element, makes the whole scrape raise [AttributeError]: the listings of
    the containers before it are not returned. *)
Theorem scrape_job_listings_missing_element firm_name params url job_tag
    job_attr title_tag title_class location_tag location_class w resp
    good bad rest js :
  selectors params url job_tag job_attr title_tag title_class
            location_tag location_class →
  network w url ∅ = Ok resp →
  soup_find_all (body resp) job_tag job_attr = good ++ bad :: rest →
  Forall2 (shows firm_name title_tag title_class location_tag location_class)
          good js →
  tag_find bad title_tag title_class = None ∨
  tag_find bad location_tag location_class = None →
  (scrape_job_listings firm_name params w).1 = Raise AttributeError.
Proof.
  intros Hsel Hnet Hpage Hgood Hbad.
  rewrite (scrape_job_listings_run _ _ _ _ _ _ _ _ _ _ _ Hsel Hnet), Hpage.
  simpl. apply (mapM_raise _ _ _ _ (to_dict <$> js)).
  - apply Forall2_fmap_r. eapply Forall2_impl; [exact Hgood|].
    intros container j Hj. by eapply scrape_listing_shows.
  - destruct Hsel as (_ & _ & _ & Htt & Htc & Hlt & Hlc).
    unfold scrape_listing, Py.config. rewrite Htt, Htc, Hlt, Hlc. simpl.
    destruct Hbad as [-> | Hloc]; [done|].
    destruct (tag_find bad title_tag title_class); simpl; [|done].
    by rewrite Hloc.
Qed.

(** X11. A container with title and location but with neither an anchor
    carrying an [href] nor an [href] of its own makes the whole scrape raise
    [KeyError] for ["href"]. *)
Theorem scrape_job_listings_missing_link firm_name params url job_tag
    job_attr title_tag title_class location_tag location_class w resp
    good bad rest js :
  selectors params url job_tag job_attr title_tag title_class
            location_tag location_class →
  network w url ∅ = Ok resp →
  soup_find_all (body resp) job_tag job_attr = good ++ bad :: rest →
  Forall2 (shows firm_name title_tag title_class location_tag location_class)
          good js →
  is_Some (tag_find bad title_tag title_class) →
  is_Some (tag_find bad location_tag location_class) →
  tag_anchor bad = None →
  tag_attr bad "href" = None →
  (scrape_job_listings firm_name params w).1 = Raise (KeyError "href").
Proof.
  intros Hsel Hnet Hpage Hgood [tel Htel] [lel Hlel] Hanchor Hhref.
  rewrite (scrape_job_listings_run _ _ _ _ _ _ _ _ _ _ _ Hsel Hnet), Hpage.
  simpl. apply (mapM_raise _ _ _ _ (to_dict <$> js)).
  - apply Forall2_fmap_r. eapply Forall2_impl; [exact Hgood|].
    intros container j Hj. by eapply scrape_listing_shows.
  - destruct Hsel as (_ & _ & _ & Htt & Htc & Hlt & Hlc).
    unfold scrape_listing, Py.config, subscript.
    rewrite Htt, Htc, Hlt, Hlc. simpl. rewrite Htel, Hlel. simpl.
    by rewrite Hanchor, Hhref.
Qed.

End scraper_properties.

(** ** More on [filter_jobs] *)

Lemma comprehension_app {A} (f : A → result bool) (xs ys : list A) :
  Py.comprehension f (xs ++ ys)
  = (a ← Py.comprehension f xs; b ← Py.comprehension f ys; Ok (a ++ b)).
Proof.
  induction xs as [|x xs IH]; cbn [app Py.comprehension].
  - cbn [mbind result_bind]. by destruct (Py.comprehension f ys).
  - destruct (f x) as [keep|]; cbn [mbind result_bind]; [|done].
    rewrite IH. destruct (Py.comprehension f xs) as [a|]; cbn [mbind result_bind]; [|done].
    destruct (Py.comprehension f ys) as [b|]; cbn [mbind result_bind]; [|done].
    by destruct keep.
Qed.

Section more_filter_properties.
Context `{StrLower}.

(** X12. Filtering a concatenation is filtering each part and
    concatenating, exceptions included: the script, which filters the
    listings of each target before collecting them, gets what filtering all
    collected listings at once would give.  This holds for any Python
    values. *)
Theorem filter_jobs_app (xs ys : list pyval) (keywords locations : list string) :
  filter_jobs (xs ++ ys) keywords locations
  = (a ← filter_jobs xs keywords locations;
     b ← filter_jobs ys keywords locations;
     Ok (a ++ b)).
Proof. unfold filter_jobs. apply comprehension_app. Qed.

Lemma wanted_mono keywords keywords' locations locations' j :
  keywords ⊆ keywords' → locations ⊆ locations' →
  wanted keywords locations j → wanted keywords' locations' j.
Proof.
  intros HK HL [(k & Hk & Hkt) (l & Hl & Hll)]. split.
  - exists k. split; [by apply HK | done].
  - exists l. split; [by apply HL | done].
Qed.

(** X13. More keywords or more locations never lose a listing: when every
    keyword of one configuration is a keyword of another, and likewise every
    location, what the first keeps is a subsequence of what the second
    keeps.  In particular neither the order of the keywords nor repeating
    one matters. *)
Theorem filter_jobs_more_criteria (js : list JobListing)
    (keywords keywords' locations locations' : list string) :
  keywords ⊆ keywords' → locations ⊆ locations' →
  ∃ out out',
    filter_jobs (to_dict <$> js) keywords locations = Ok out ∧
    filter_jobs (to_dict <$> js) keywords' locations' = Ok out' ∧
    out `sublist_of` out'.
Proof.
  intros HK HL. eexists _, _. rewrite !filter_jobs_records.
  split; [done|]. split; [done|].
  apply fmap_sublist, filter_sublist_impl. intros j.
  rewrite !matchesb_wanted. by apply wanted_mono.
Qed.

Lemma contains_empty (hay : string) : Py.contains "" hay = true.
Proof. by destruct hay. Qed.

(** X14. An empty string among the keywords matches every title, and among
    the locations every location ([""] is a substring of any string): with
    both, the filter keeps every listing.  It is assumed of [str.lower] that
    it maps the empty string to itself. *)
Theorem filter_jobs_blank_matches_all (js : list JobListing)
    (keywords locations : list string) :
  str_lower "" = "" →
  "" ∈ keywords → "" ∈ locations →
  filter_jobs (to_dict <$> js) keywords locations = Ok (to_dict <$> js).
Proof.
  intros Hlower HK HL. rewrite filter_jobs_records. do 2 f_equal.
  apply filter_all. intros j. unfold matchesb.
  apply andb_true_iff. rewrite !existsb_exists.
  split; exists ""; (split; [by apply list_elem_of_In|]);
    rewrite Hlower; apply contains_empty.
Qed.

Lemma job_matches_no_title keywords locations (d : gmap string pyval) :
  keywords ≠ [] → d !! "title" = None →
  job_matches keywords locations (PDict d) = Raise (KeyError "title").
Proof.
  intros HK Hd. destruct keywords as [|k keywords]; [done|].
  assert (field_matches (PDict d) "title" k = Raise (KeyError "title")) as Hk.
  { unfold field_matches, Py.getitem. by rewrite Hd. }
  unfold job_matches. cbn [Py.any]. by rewrite Hk.
Qed.

(** X15. One dictionary without a ["title"] aborts the filter: with at
    least one keyword configured, a list of job records followed by such a
    dictionary raises [KeyError] for ["title"], whatever follows, and the
    records before it are not returned. *)
Theorem filter_jobs_missing_title (good : list JobListing)
    (d : gmap string pyval) (rest : list pyval)
    (keywords locations : list string) :
  keywords ≠ [] → d !! "title" = None →
  filter_jobs ((to_dict <$> good) ++ PDict d :: rest) keywords locations
  = Raise (KeyError "title").
Proof.
  intros HK Hd. unfold filter_jobs. rewrite comprehension_app.
  fold (filter_jobs (to_dict <$> good) keywords locations).
  rewrite filter_jobs_records. cbn [mbind result_bind Py.comprehension].
  by rewrite (job_matches_no_title _ _ _ HK Hd).
Qed.

Lemma any_none {A} (f : A → result bool) (l : list A) :
  (∀ x, x ∈ l → f x = Ok false) → Py.any f l = Ok false.
Proof.
  induction l as [|x l IH]; intros Hf; cbn [Py.any]; [done|].
  rewrite (Hf x) by left. cbn [mbind result_bind]. apply IH.
  intros y Hy. apply Hf. by right.
Qed.

(** X16. The location of a listing is looked at only when its title
    matched: a dictionary whose title matches no keyword is dropped without
    an exception even when it has no ["location"], or one that is not a
    string, and the rest of the list is filtered as usual. *)
Theorem filter_jobs_skips_location (d : gmap string pyval) (t : string)
    (jobs : list pyval) (keywords locations : list string) :
  d !! "title" = Some (PStr t) →
  (∀ k, k ∈ keywords → ¬ ci_substring k t) →
  filter_jobs (PDict d :: jobs) keywords locations
  = filter_jobs jobs keywords locations.
Proof.
  intros Hd Hnone. unfold filter_jobs. cbn [Py.comprehension].
  assert (job_matches keywords locations (PDict d) = Ok false) as ->.
  { unfold job_matches.
    rewrite (any_none (field_matches (PDict d) "title") keywords); [done|].
    intros k Hk.
    unfold field_matches, Py.getitem. rewrite Hd. simpl. f_equal.
    apply not_true_is_false. rewrite contains_spec. by apply Hnone. }
  cbn [mbind result_bind].
  by destruct (Py.comprehension (job_matches keywords locations) jobs).
Qed.

End more_filter_properties.

(** ** More on [process_api_response] *)

Lemma mapM_ok_inv {A B} (f : A → result B) (l : list A) (out : list B) :
  mapM f l = Ok out → Forall2 (λ x y, f x = Ok y) l out.
Proof.
  revert out. induction l as [|x l IH]; intros out.
  - intros [= <-]. constructor.
  - cbn [mapM]. destruct (f x) as [y|] eqn:Hx; [|done].
    cbn [mbind result_bind]. destruct (mapM f l) as [ys|]; [|done].
    intros [= <-]. constructor; [done | by apply IH].
Qed.

Lemma process_api_response_array params data items firm_name :
  holds_array params data items →
  process_api_response data firm_name params
  = mapM (normalise firm_name params) items.
Proof.
  intros [-> | (d & key & -> & Hkey & Hd)]; [done|].
  unfold process_api_response, Py.config. rewrite Hkey. simpl. by rewrite Hd.
Qed.

Lemma normalise_ok_dict firm_name params item record :
  normalise firm_name params item = Ok record → ∃ e, item = PDict e.
Proof.
  unfold normalise. destruct (Py.config params "title") as [tk|]; [|done].
  destruct item; try done. eauto.
Qed.

Lemma normalise_all_ok firm_name params title_key location_key link_key
    (good : list (gmap string pyval)) :
  params !! "title" = Some title_key →
  params !! "location" = Some location_key →
  params !! "link" = Some link_key →
  Forall (λ element,
            is_Some (element !! title_key) ∧
            is_Some (element !! location_key) ∧
            (link_key ≠ "" → is_Some (element !! link_key))) good →
  ∃ out, Forall2 (λ x y, normalise firm_name params x = Ok y)
                 (PDict <$> good) out.
Proof.
  intros Ht Hl Hk. induction 1 as [|element good (Het & Hel & Hek) _ [out IH]].
  - exists []. constructor.
  - destruct (normalise_mapped firm_name params _ _ _ element Ht Hl Hk Het Hel Hek)
      as (record & Hrecord & _).
    exists (PDict record :: out). rewrite fmap_cons. by constructor.
Qed.

(** X17. An element that lacks a configured field aborts the normaliser:
    when the elements before it carry all configured fields, the call raises
    [KeyError] for the first of title, location and (when configured) link
    that the element lacks, whatever follows; no partial list is returned. *)
Theorem process_api_response_missing_field firm_name params
    title_key location_key link_key
    (good : list (gmap string pyval)) (bad : gmap string pyval)
    (rest : list pyval) (missing : string) :
  params !! "title" = Some title_key →
  params !! "location" = Some location_key →
  params !! "link" = Some link_key →
  Forall (λ element,
            is_Some (element !! title_key) ∧
            is_Some (element !! location_key) ∧
            (link_key ≠ "" → is_Some (element !! link_key))) good →
  (bad !! title_key = None ∧ missing = title_key) ∨
  (is_Some (bad !! title_key) ∧ bad !! location_key = None ∧
   missing = location_key) ∨
  (is_Some (bad !! title_key) ∧ is_Some (bad !! location_key) ∧
   link_key ≠ "" ∧ bad !! link_key = None ∧ missing = link_key) →
  process_api_response (PList ((PDict <$> good) ++ PDict bad :: rest))
                       firm_name params
  = Raise (KeyError missing).
Proof.
  intros Ht Hl Hk Hgood Hbad.
  destruct (normalise_all_ok firm_name params _ _ _ good Ht Hl Hk Hgood)
    as [out Hout].
  unfold process_api_response. simpl. apply (mapM_raise _ _ _ _ out _ Hout).
  unfold normalise, Py.config. rewrite Ht, Hl, Hk. simpl.
  destruct Hbad as [[Hbt ->] | [([t Hbt] & Hbl & ->) |
                                ([t Hbt] & [l Hbl] & Hne & Hbk & ->)]].
  - by rewrite Hbt.
  - by rewrite Hbt, Hbl.
  - rewrite Hbt, Hbl. simpl. rewrite bool_decide_eq_false_2 by done.
    simpl. by rewrite Hbk.
Qed.

(** X18. The normaliser makes listings only out of an array of objects and
    skips nothing: when it returns a non-empty list, the payload is an array,
    or an object holding an array under the configured key, every element of
    the array is an object, and the result has one listing per element.  A
    string or an object where the array is expected gives the empty list or
    an exception. *)
Theorem process_api_response_only_arrays data firm_name params jobs :
  process_api_response data firm_name params = Ok jobs →
  jobs = [] ∨
  ∃ items,
    holds_array params data items ∧
    length jobs = length items ∧
    Forall (λ item, ∃ e, item = PDict e) items.
Proof.
  unfold process_api_response.
  destruct (match data with
            | PDict _ => key ← Py.config params "key"; Py.getitem data key
            | _ => Ok data
            end) as [v|] eqn:Hv; [|done].
  cbn [mbind result_bind].
  assert (∀ l, (∀ x, x ∈ l → ∃ s, x = PStr s) →
               mapM (normalise firm_name params) l = Ok jobs → jobs = [])
    as Hstrings.
  { intros [|x l] Hl; [by intros [= <-]|].
    cbn [mapM]. destruct (Hl x) as [s ->]; [left|].
    destruct (normalise firm_name params (PStr s)) as [y|] eqn:Hx; [|done].
    by apply normalise_ok_dict in Hx as [e He]. }
  destruct v as [| | |s|items|d']; try done; cbn [Py.iter mbind result_bind].
  - intros Hjobs. left. eapply Hstrings; [|exact Hjobs].
    intros x (c & -> & _)%list_elem_of_fmap. eauto.
  - intros Hjobs. right. exists items.
    apply mapM_ok_inv in Hjobs. split; [|split].
    + destruct data; try (injection Hv as ->; by left).
      right. unfold Py.config in Hv.
      destruct (params !! "key") as [key|] eqn:Hkey; [|done].
      simpl in Hv. destruct (d !! key) as [x|] eqn:Hd; [|done].
      injection Hv as ->. eauto.
    + symmetry. by eapply Forall2_length.
    + clear -Hjobs. induction Hjobs as [|x y l out Hx _ IH]; constructor; [|done].
      by eapply normalise_ok_dict.
  - intros Hjobs. left. eapply Hstrings; [|exact Hjobs].
    intros x (kv & -> & _)%list_elem_of_fmap. eauto.
Qed.

(** ** The loops of the script *)

Section loop_properties.
Context `{StrLower} `{JsonCodec} `{ValueFormat} `{Soup}.

(** X19. The body of the loop over HTML targets composes scraper and
    filter: for a page whose containers each show a listing, it yields the
    records of exactly those listings that the keywords and locations want,
    in page order. *)
Theorem soup_step_collects firm_name params url job_tag job_attr
    title_tag title_class location_tag location_class w resp
    (js : list JobListing) (keywords locations : list string)
    `{!∀ j, Decision (wanted keywords locations j)} :
  selectors params url job_tag job_attr title_tag title_class
            location_tag location_class →
  network w url ∅ = Ok resp →
  Forall2 (shows firm_name title_tag title_class location_tag location_class)
          (soup_find_all (body resp) job_tag job_attr) js →
  (soup_step keywords locations (firm_name, params) w).1
  = Ok (to_dict <$> filter (wanted keywords locations) js).
Proof.
  intros Hsel Hnet Hshows. unfold soup_step. cbn [fst snd].
  unfold mbind, IO_bind.
  rewrite (scrape_job_listings_run _ _ _ _ _ _ _ _ _ _ _ Hsel Hnet).
  rewrite (mapM_ok _ _ (to_dict <$> js)).
  - unfold Sys.lift. cbn [fst]. rewrite filter_jobs_records. do 2 f_equal.
    apply filter_decide, matchesb_wanted.
  - apply Forall2_fmap_r. eapply Forall2_impl; [exact Hshows|].
    intros container j Hj. by eapply scrape_listing_shows.
Qed.

Lemma call_job_listing_api_success url headers w resp data :
  network w url headers = Ok resp →
  status_code resp = 200%Z →
  json_loads (body resp) = Some data →
  call_job_listing_api url headers w
  = (Ok data, (Sys.record (EvHttpGet url headers) w).2).
Proof.
  intros Hnet Hstatus Hjson. unfold call_job_listing_api.
  unfold Sys.http_get, Sys.inspect, Sys.lift, json_value, mbind, IO_bind.
  simpl. rewrite Hnet. rewrite bool_decide_eq_true_2 by done.
  by rewrite Hjson.
Qed.

(** X20. The body of the loop over API targets composes collector,
    normaliser and filter: when the request is answered with status 200 and
    a JSON document that holds, directly or under the configured key, an
    array whose elements carry strings under the configured field names, it
    yields the records of exactly those listings that the keywords and
    locations want, in the order of the array. *)
Theorem api_step_collects firm_name (target : api_target) url headers
    title_key location_key link_key w resp data
    (elements : list (gmap string pyval)) (js : list JobListing)
    (keywords locations : list string)
    `{!∀ j, Decision (wanted keywords locations j)} :
  api_strings target !! "url" = Some url →
  api_headers target = Some headers →
  api_strings target !! "title" = Some title_key →
  api_strings target !! "location" = Some location_key →
  api_strings target !! "link" = Some link_key →
  network w url headers = Ok resp →
  status_code resp = 200%Z →
  json_loads (body resp) = Some data →
  holds_array (api_strings target) data (PDict <$> elements) →
  Forall2 (listing_of firm_name title_key location_key link_key) elements js →
  (api_step keywords locations (firm_name, target) w).1
  = Ok (to_dict <$> filter (wanted keywords locations) js).
Proof.
  intros Hurl Hheaders Ht Hl Hk Hnet Hstatus Hjson Harray Hall.
  unfold api_step, Py.config, entry. cbn [fst snd]. rewrite Hurl, Hheaders.
  rewrite (bind_lift_ok _ _ _ url) by done.
  rewrite (bind_lift_ok _ _ _ headers) by done.
  rewrite (bind_ok _ _ _ _ _
             (call_job_listing_api_success _ _ _ _ _ Hnet Hstatus Hjson)).
  assert (process_api_response data firm_name (api_strings target)
          = Ok (to_dict <$> js)) as Hjobs.
  { rewrite (process_api_response_array _ _ _ _ Harray).
    pose proof (process_api_response_listings firm_name (api_strings target)
                  _ _ _ elements js Ht Hl Hk Hall) as Hlist.
    by rewrite (process_api_response_array _ _ (PDict <$> elements)) in Hlist
      by by left. }
  rewrite (bind_lift_ok _ _ _ _ Hjobs). unfold Sys.lift. cbn [fst].
  rewrite filter_jobs_records. do 2 f_equal.
  apply filter_decide, matchesb_wanted.
Qed.

Lemma gather_raise {T} (step : T → IO (list pyval)) target targets all_jobs
    w e w1 :
  step target w = (Raise e, w1) →
  gather step (target :: targets) all_jobs w = (Raise e, w1).
Proof. intros Hstep. cbn [gather]. by apply bind_raise. Qed.

(** X21. One API target that answers with a status other than 200 aborts
    the whole run: when the HTML targets were collected and the first API
    target's request is answered with such a status, the script raises
    [TypeError]; nothing is notified or saved, for the later targets are not
    even requested and the files stay as they were. *)
Theorem main_failed_api_target config keywords locations soup_targets
    firm_name (target : api_target) api_targets
    url headers all_jobs w w1 resp :
  cfg_keywords config = Some keywords →
  cfg_locations config = Some locations →
  cfg_soup_targets config = Some soup_targets →
  cfg_api_targets config = Some ((firm_name, target) :: api_targets) →
  gather (soup_step keywords locations) soup_targets [] w = (Ok all_jobs, w1) →
  api_strings target !! "url" = Some url →
  api_headers target = Some headers →
  network w url headers = Ok resp →
  status_code resp ≠ 200%Z →
  (main config w).1 = Raise TypeError ∧
  files (main config w).2 = files w ∧
  trace (main config w).2
  = trace w1 ++ [ EvHttpGet url headers;
                  EvPrint ("Failed to fetch data. HTTP Status Code: "
                           +:+ pretty (status_code resp)) ].
Proof.
  intros HK HL Hsoup Hapi Hgather Hurl Hheaders Hnet Hstatus.
  assert (network w1 url headers = Ok resp) as Hnet1.
  { pose proof (readonly_gather (soup_step keywords locations) soup_targets []
                  (λ t, readonly_soup_step keywords locations t) w) as Hro.
    rewrite Hgather in Hro. destruct Hro as (_ & _ & Hnetwork & _).
    simpl in Hnetwork. by rewrite Hnetwork. }
  assert (main config w
          = (Raise TypeError,
             (Sys.print ("Failed to fetch data. HTTP Status Code: "
                         +:+ pretty (status_code resp))
                (Sys.record (EvHttpGet url headers) w1).2).2)) as Hmain.
  { unfold main, entry. rewrite HK, HL, Hsoup, Hapi.
    rewrite (bind_lift_ok _ _ _ keywords) by done.
    rewrite (bind_lift_ok _ _ _ locations) by done.
    rewrite (bind_lift_ok _ _ _ soup_targets) by done.
    rewrite (bind_ok _ _ _ _ _ Hgather).
    rewrite (bind_lift_ok _ _ _ ((firm_name, target) :: api_targets)) by done.
    apply bind_raise, gather_raise.
    unfold api_step, Py.config, entry. cbn [fst snd]. rewrite Hurl, Hheaders.
    rewrite (bind_lift_ok _ _ _ url) by done.
    rewrite (bind_lift_ok _ _ _ headers) by done.
    unfold call_job_listing_api, Sys.http_get, Sys.inspect, mbind, IO_bind.
    simpl. rewrite Hnet1. by rewrite bool_decide_eq_false_2 by done. }
  split; [by rewrite Hmain|]. split.
  - apply (main_store_kept config w TypeError). by rewrite Hmain.
  - rewrite Hmain. simpl. by rewrite <- app_assoc.
Qed.

End loop_properties.

(** ** More on the persistence functions *)

Section more_io_properties.
Context `{JsonCodec}.



End more_io_properties.

(** ** More on [send_email_notification] *)

Section more_notifier_properties.
Context `{ValueFormat}.

Lemma format_jobs_records (js : list JobListing) :
  mapM format_job (to_dict <$> js) = Ok (announcement <$> js).
Proof.
  apply mapM_ok. apply Forall2_fmap. apply Forall2_same_length_lookup_2; [done|].
  intros i j1 j2 Hj1 Hj2. assert (j1 = j2) as -> by congruence. reflexivity.
Qed.

Lemma getenv_run name w :
  Sys.getenv name w
  = (match environ w !! name with
     | Some v => Ok v
     | None => Raise (KeyError name)
     end, (Sys.record (EvEnviron name) w).2).
Proof. reflexivity. Qed.

Lemma smtp_run c w :
  Sys.smtp c w
  = (if smtp_accepts w c then Ok () else Raise SMTPException,
     (Sys.record (EvSmtp c) w).2).
Proof. reflexivity. Qed.

Lemma getenv_ok name v w :
  environ w !! name = Some v →
  Sys.getenv name w = (Ok v, (Sys.record (EvEnviron name) w).2).
Proof. intros Hv. by rewrite getenv_run, Hv. Qed.

Lemma getenv_missing name w :
  environ w !! name = None →
  Sys.getenv name w = (Raise (KeyError name), (Sys.record (EvEnviron name) w).2).
Proof. intros Hv. by rewrite getenv_run, Hv. Qed.

Lemma smtp_ok c w :
  smtp_accepts w c = true →
  Sys.smtp c w = (Ok (), (Sys.record (EvSmtp c) w).2).
Proof. intros Hc. by rewrite smtp_run, Hc. Qed.

Lemma smtp_refused c w :
  smtp_accepts w c = false →
  Sys.smtp c w = (Raise SMTPException, (Sys.record (EvSmtp c) w).2).
Proof. intros Hc. by rewrite smtp_run, Hc. Qed.

Lemma record_trace ev w : trace (Sys.record ev w).2 = trace w ++ [ev].
Proof. reflexivity. Qed.

(** Leaving the block of [with] when the server accepts QUIT: the outcome is
    that of the block, and QUIT is the last command. *)
Lemma finally_quit_run {A} (block : IO A) w :
  readonly block →
  smtp_accepts w SmtpQuit = true →
  Sys.finally_quit block w
  = ((block w).1, (Sys.record (EvSmtp SmtpQuit) (block w).2).2).
Proof.
  intros Hblock Hquit. unfold Sys.finally_quit.
  destruct (Hblock w) as (_ & _ & _ & Haccepts).
  destruct (block w) as [r w1]. simpl in Haccepts.
  rewrite smtp_ok by by rewrite Haccepts.
  by destruct r.
Qed.

Lemma smtp_commands_app (evs evs' : list event) :
  smtp_commands (evs ++ evs') = smtp_commands evs ++ smtp_commands evs'.
Proof. unfold smtp_commands. apply omap_app. Qed.

(** One statement of the notifier at a time: a setting that is present or
    missing, a command that is accepted or refused. *)
Ltac run_getenv Hv :=
  match goal with
  | |- context [(Sys.getenv ?n ≫= ?f) ?w0] =>
      rewrite (bind_ok (Sys.getenv n) f w0 _ _ (getenv_ok n _ w0 Hv));
      cbv beta zeta
  end.

Ltac stop_getenv Hv :=
  match goal with
  | |- context [(Sys.getenv ?n ≫= ?f) ?w0] =>
      rewrite (bind_raise (Sys.getenv n) f w0 _ _ (getenv_missing n w0 Hv))
  end.

Ltac run_smtp Hc :=
  match goal with
  | |- context [(Sys.smtp ?c ≫= ?f) ?w0] =>
      rewrite (bind_ok (Sys.smtp c) f w0 _ _ (smtp_ok c w0 Hc));
      cbv beta zeta
  end.

Ltac stop_smtp Hc :=
  match goal with
  | |- context [(Sys.smtp ?c ≫= ?f) ?w0] =>
      rewrite (bind_raise (Sys.smtp c) f w0 _ _ (smtp_refused c w0 Hc))
  end.

Ltac last_smtp Hc :=
  match goal with
  | |- context [Sys.smtp ?c ?w0] => rewrite (smtp_ok c w0 Hc)
  end.

Ltac quiet_stop :=
  split; [by eexists|]; cbn [fst snd];
  rewrite !record_trace, !smtp_commands_app; simpl;
  by rewrite ?app_nil_r.

Ltac run_quit Hc :=
  match goal with
  | |- context [Sys.finally_quit ?block ?w0] =>
      rewrite (finally_quit_run block w0 ltac:(readonly) Hc)
  end.

Ltac run_records js :=
  match goal with
  | |- context [(Sys.lift (mapM format_job ?jobs) ≫= ?f) ?w0] =>
      rewrite (bind_lift_ok (mapM format_job jobs) f w0 _
                 (format_jobs_records js));
      cbv beta zeta
  end.

Lemma notifier_session
    (sender recipient host port password : string)
    (js : list JobListing) (w : world) :
  js ≠ [] →
  address_settings w sender recipient host port →
  environ w !! "MAIL_PASSWORD" = Some password →
  (∀ c, smtp_accepts w c = true) →
  (send_email_notification (to_dict <$> js) w).1 = Ok () ∧
  trace (send_email_notification (to_dict <$> js) w).2
  = trace w ++ session sender recipient host port password js.
Proof.
  intros Hjs (Hsender & Hrecipient & Hhost & Hport) Hpassword Haccepts.
  destruct js as [|j js]; [done|].
  change (to_dict <$> j :: js) with (to_dict j :: (to_dict <$> js)).
  cbn [send_email_notification].
  change (to_dict j :: (to_dict <$> js)) with (to_dict <$> j :: js).
  run_getenv Hsender. run_getenv Hrecipient. run_records (j :: js).
  run_getenv Hhost. run_getenv Hport.
  unfold Sys.with_smtp. run_smtp (Haccepts (SmtpConnect host port)).
  run_quit (Haccepts SmtpQuit).
  run_smtp (Haccepts SmtpStartTls). run_getenv Hpassword.
  run_smtp (Haccepts (SmtpLogin sender password)).
  last_smtp (Haccepts (SmtpSendMessage (mail sender recipient (j :: js)))).
  cbn [fst snd].
  split; [done|]. rewrite !record_trace, <- !app_assoc. reflexivity.
Qed.

(** X24. When the five mail settings are present and the server accepts
    every command, the notifier announces a non-empty list of job records in
    one session: it reads sender, recipient, host and port, connects, starts
    TLS, reads the password, logs in as the sender, sends one message from
    the sender to the recipient whose body has, for each listing in order,
    the line "employer - title - location" and the link on the next line,
    and quits. *)
Theorem send_email_notification_session
    (sender recipient host port password : string)
    (js : list JobListing) (w : world) :
  js ≠ [] →
  address_settings w sender recipient host port →
  environ w !! "MAIL_PASSWORD" = Some password →
  (∀ c, smtp_accepts w c = true) →
  (send_email_notification (to_dict <$> js) w).1 = Ok () ∧
  trace (send_email_notification (to_dict <$> js) w).2
  = trace w ++ session sender recipient host port password js.
Proof.
  intros Hjs Haddress Hpassword Haccepts.
  by apply notifier_session.
Qed.

(** X25. The notifier never changes a file or an environment variable,
    whatever the listings and however the session goes. *)
Theorem send_email_notification_changes_nothing (jobs : list pyval) (w : world) :
  files (send_email_notification jobs w).2 = files w ∧
  environ (send_email_notification jobs w).2 = environ w.
Proof.
  destruct (readonly_send_email_notification jobs w) as (Henv & Hfiles & _).
  by split.
Qed.

(** X26. When one of the sender, recipient, host and port settings is
    missing, the notifier raises without having sent a single SMTP command:
    these four are read, and the message is composed, before the connection
    is opened. *)
Theorem send_email_notification_missing_setting (name : string)
    (job : pyval) (jobs : list pyval) (w : world) :
  name ∈ ["MAIL_SENDER"; "MAIL_RECIPIENT"; "MAIL_HOST"; "MAIL_PORT"] →
  environ w !! name = None →
  (∃ e, (send_email_notification (job :: jobs) w).1 = Raise e) ∧
  smtp_commands (trace (send_email_notification (job :: jobs) w).2)
  = smtp_commands (trace w).
Proof.
  intros Hname Hmissing. cbn [send_email_notification].
  destruct (environ w !! "MAIL_SENDER") as [sender|] eqn:Hsender;
    [run_getenv Hsender | stop_getenv Hsender];
    [|quiet_stop].
  destruct (environ w !! "MAIL_RECIPIENT") as [recipient|] eqn:Hrecipient;
    [run_getenv Hrecipient | stop_getenv Hrecipient];
    [|quiet_stop].
  destruct (mapM format_job (job :: jobs)) as [lines|e] eqn:Hlines;
    [rewrite (bind_lift_ok _ _ _ _ eq_refl)
    |rewrite (bind_lift_raise _ _ _ _ eq_refl)];
    [|quiet_stop].
  cbv beta zeta.
  destruct (environ w !! "MAIL_HOST") as [host|] eqn:Hhost;
    [run_getenv Hhost | stop_getenv Hhost];
    [|quiet_stop].
  destruct (environ w !! "MAIL_PORT") as [port|] eqn:Hport;
    [run_getenv Hport | stop_getenv Hport];
    [|quiet_stop].
  exfalso. apply list_elem_of_In in Hname. simpl in Hname.
  destruct Hname as [<- | [<- | [<- | [<- | []]]]]; congruence.
Qed.

(** X27. A refused login ends the session without a message: with the
    settings present and the connection and TLS accepted, when the server
    refuses the login the notifier raises [SMTPException]; the SMTP commands
    of the session are connect, STARTTLS, the login and QUIT, and no message
    is sent. *)
Theorem send_email_notification_refused_login
    (sender recipient host port password : string)
    (js : list JobListing) (w : world) :
  js ≠ [] →
  address_settings w sender recipient host port →
  environ w !! "MAIL_PASSWORD" = Some password →
  smtp_accepts w (SmtpConnect host port) = true →
  smtp_accepts w SmtpStartTls = true →
  smtp_accepts w (SmtpLogin sender password) = false →
  smtp_accepts w SmtpQuit = true →
  (send_email_notification (to_dict <$> js) w).1 = Raise SMTPException ∧
  smtp_commands (trace (send_email_notification (to_dict <$> js) w).2)
  = smtp_commands (trace w)
    ++ [ SmtpConnect host port; SmtpStartTls;
         SmtpLogin sender password; SmtpQuit ].
Proof.
  intros Hjs (Hsender & Hrecipient & Hhost & Hport) Hpassword.
  intros Hconnect Htls Hlogin Hquit.
  destruct js as [|j js]; [done|].
  change (to_dict <$> j :: js) with (to_dict j :: (to_dict <$> js)).
  cbn [send_email_notification].
  change (to_dict j :: (to_dict <$> js)) with (to_dict <$> j :: js).
  run_getenv Hsender. run_getenv Hrecipient. run_records (j :: js).
  run_getenv Hhost. run_getenv Hport.
  unfold Sys.with_smtp. run_smtp Hconnect. run_quit Hquit.
  run_smtp Htls. run_getenv Hpassword. stop_smtp Hlogin. cbn [fst snd].
  split; [done|]. rewrite !record_trace, !smtp_commands_app.
  rewrite <- !app_assoc. reflexivity.
Qed.

(** X28. A missing password is noticed only once the connection is open:
    with the other four settings present and a server that accepts every
    command, the notifier connects, starts TLS, raises [KeyError] for
    [MAIL_PASSWORD] and quits; it neither logs in nor sends a message. *)
Theorem send_email_notification_missing_password
    (sender recipient host port : string)
    (js : list JobListing) (w : world) :
  js ≠ [] →
  address_settings w sender recipient host port →
  environ w !! "MAIL_PASSWORD" = None →
  (∀ c, smtp_accepts w c = true) →
  (send_email_notification (to_dict <$> js) w).1
  = Raise (KeyError "MAIL_PASSWORD") ∧
  smtp_commands (trace (send_email_notification (to_dict <$> js) w).2)
  = smtp_commands (trace w) ++ [SmtpConnect host port; SmtpStartTls; SmtpQuit].
Proof.
  intros Hjs (Hsender & Hrecipient & Hhost & Hport) Hpassword Haccepts.
  destruct js as [|j js]; [done|].
  change (to_dict <$> j :: js) with (to_dict j :: (to_dict <$> js)).
  cbn [send_email_notification].
  change (to_dict j :: (to_dict <$> js)) with (to_dict <$> j :: js).
  run_getenv Hsender. run_getenv Hrecipient. run_records (j :: js).
  run_getenv Hhost. run_getenv Hport.
  unfold Sys.with_smtp. run_smtp (Haccepts (SmtpConnect host port)).
  run_quit (Haccepts SmtpQuit).
  run_smtp (Haccepts SmtpStartTls). stop_getenv Hpassword. cbn [fst snd].
  split; [done|]. rewrite !record_trace, !smtp_commands_app.
  rewrite <- !app_assoc. reflexivity.
Qed.

End more_notifier_properties.

(** ** The end of the script, continued *)

Section more_settle_properties.
Context `{StrLower} `{JsonCodec} `{ValueFormat} `{Soup}.

Lemma contained_not_list (d : gmap string pyval) (v : pyval) :
  (∀ l, v ≠ PList l) → contained (PDict d) v = Raise TypeError.
Proof. intros Hv. destruct v; try done. by destruct (Hv l). Qed.

Lemma extend_not_list (v : pyval) (new_jobs : list pyval) :
  (∀ l, v ≠ PList l) → extend v new_jobs = Raise AttributeError.
Proof. intros Hv. destruct v; try done. by destruct (Hv l). Qed.

(** X29. A store that is a JSON document but not an array is fatal and is
    left as it is: after reading it the script raises, [TypeError] at the
    first collected listing (a dictionary) that it looks for in the store,
    or [AttributeError] at [extend] when nothing was collected; it notifies
    nobody and writes nothing. *)
Theorem settle_store_not_a_list (ds : list (gmap string pyval)) (v : pyval) w :
  (load_jobs "jobs.json" w).1 = Ok v →
  (∀ l, v ≠ PList l) →
  (settle (PDict <$> ds) w).1
  = Raise (match ds with [] => AttributeError | _ :: _ => TypeError end) ∧
  trace (settle (PDict <$> ds) w).2 = trace w ++ [EvRead "jobs.json"] ∧
  files (settle (PDict <$> ds) w).2 = files w.
Proof.
  intros Hload Hv. unfold settle.
  rewrite (bind_ok _ _ w v (Sys.record (EvRead "jobs.json") w).2)
    by (by rewrite load_jobs_run, Hload).
  destruct ds as [|d ds].
  - rewrite (bind_lift_ok _ _ _ []) by done.
    rewrite (bind_ok (mret ()) _ _ () _ eq_refl).
    by rewrite (bind_lift_raise _ _ _ AttributeError) by by apply extend_not_list.
  - rewrite (bind_lift_raise _ _ _ TypeError); [done|].
    unfold identify_new_jobs_loaded. rewrite fmap_cons. cbn [Py.comprehension].
    by rewrite contained_not_list.
Qed.

(** X30. A run with new listings announces exactly these, once, and then
    records them: when the store holds job records, the mail settings are
    present and the server accepts every command, the end of the script
    reads the store, holds one session whose single message lists the
    collected records that are not in the store, in order, and writes the
    store followed by these records. *)
Theorem settle_announces_new_jobs
    (sender recipient host port password : string)
    (js seen : list JobListing) (w : world) :
  let new := filter (λ j, j ∉ seen) js in
  (load_jobs "jobs.json" w).1 = Ok (PList (to_dict <$> seen)) →
  new ≠ [] →
  address_settings w sender recipient host port →
  environ w !! "MAIL_PASSWORD" = Some password →
  (∀ c, smtp_accepts w c = true) →
  (settle (to_dict <$> js) w).1 = Ok () ∧
  trace (settle (to_dict <$> js) w).2
  = trace w
    ++ EvRead "jobs.json"
    :: session sender recipient host port password new
    ++ [EvWrite "jobs.json" (json_dumps (PList (to_dict <$> seen ++ new)))].
Proof.
  intros new Hload Hnew Haddress Hpassword Haccepts.
  rewrite (settle_run _ _ _ Hload).
  assert (identify_new_jobs (to_dict <$> js) (to_dict <$> seen)
          = to_dict <$> new) as ->.
  { unfold identify_new_jobs, new. rewrite filter_fmap. f_equal.
    apply filter_decide. intros j; simpl.
    rewrite negb_true_iff, <- not_true_iff_false. by rewrite mem_records. }
  set (w0 := (Sys.record (EvRead "jobs.json") w).2).
  destruct (notifier_session sender recipient host port password new w0
              Hnew Haddress Hpassword Haccepts) as [Hok Htrace].
  destruct new as [|j new'] eqn:Hnew'; [done|]. rewrite <- Hnew' in *.
  assert (match to_dict <$> new with
          | [] => mret ()
          | _ :: _ => send_email_notification (to_dict <$> new)
          end = send_email_notification (to_dict <$> new)) as ->
    by by rewrite Hnew'.
  destruct (send_email_notification (to_dict <$> new) w0) as [r w2] eqn:Hsend.
  cbn [fst snd] in Hok, Htrace. subst r.
  rewrite (bind_ok _ _ _ _ _ Hsend). split; [done|].
  assert (∀ jobs path w1, trace (save_jobs jobs path w1).2
                          = trace w1 ++ [EvWrite path (json_dumps (PList jobs))])
    as -> by reflexivity.
  rewrite Htrace. unfold w0.
  rewrite record_trace, <- !app_assoc, fmap_app. reflexivity.
Qed.

End more_settle_properties.

(* ================================================================= *)
(** * Further scenarios *)

Section further_scenarios.
Local Existing Instance Reference.ascii_lower.
Local Existing Instance Reference.json.
Local Existing Instance Stub.repr.
Local Existing Instance Stub.soup.

(** A whole run: the engineer is found on the page and through the API, is
    announced twice in one message and stored twice. *)
Example main_scenario :
  (main Stub.config Stub.web).1 = Ok () ∧
  files (main Stub.config Stub.web).2 !! "jobs.json"
  = Some (json_dumps (PList (to_dict <$> [Reference.engineer; Reference.engineer]))) ∧
  length (smtp_commands (trace (main Stub.config Stub.web).2)) = 5.
Proof. vm_compute. done. Qed.



Lemma settle_twice_is_silent_witness :
  let all_jobs := to_dict <$> [Reference.engineer; Reference.sales] in
  let w1 := (settle all_jobs Reference.online).2 in
  (settle all_jobs w1).1 = Ok () ∧
  trace (settle all_jobs w1).2
  = trace w1 ++ [ EvRead "jobs.json";
                  EvWrite "jobs.json"
                          (json_dumps (PList ([] ++ identify_new_jobs all_jobs []))) ] ∧
  files (settle all_jobs w1).2 = files w1.
Proof.
  intros all_jobs w1.
  apply (settle_twice_is_silent all_jobs [] Reference.online).
  - vm_compute. reflexivity.
  - vm_compute. reflexivity.
  - vm_compute. reflexivity.
Defined.


Lemma main_touches_only_store_witness :
  files (main Stub.config Stub.web).2 !! "config.yaml"
  = files Stub.web !! "config.yaml" ∧
  environ (main Stub.config Stub.web).2 = environ Stub.web.
Proof.
  apply (main_touches_only_store Stub.config Stub.web "config.yaml"). done.
Defined.

Lemma scrape_job_listings_returns_records_witness :
  ∃ js, to_dict <$> [Reference.engineer; Reference.sales] = to_dict <$> js ∧
        Forall (λ j, employer j = "Acme") js.
Proof.
  apply (scrape_job_listings_returns_records
           "Acme" Stub.soup_params (Stub.serving 404 "careers")).
  vm_compute. reflexivity.
Defined.

Lemma scrape_job_listings_page_witness :
  (scrape_job_listings "Acme" Stub.soup_params (Stub.serving 503 "careers")).1
  = Ok (to_dict <$> [Reference.engineer; Reference.sales]) ∧
  trace (scrape_job_listings "Acme" Stub.soup_params (Stub.serving 503 "careers")).2
  = trace (Stub.serving 503 "careers")
    ++ [EvHttpGet "https://acme.example/careers" ∅].
Proof.
  apply (scrape_job_listings_page
           "Acme" Stub.soup_params "https://acme.example/careers" "div" "job"
           "h2" "title" "span" "location" (Stub.serving 503 "careers")
           {| status_code := 503; body := "careers" |}).
  - repeat split; reflexivity.
  - reflexivity.
  - repeat constructor; simpl; eauto.
Defined.

Lemma scrape_job_listings_missing_element_witness :
  (scrape_job_listings "Acme" Stub.soup_params (Stub.serving 200 "broken")).1
  = Raise AttributeError.
Proof.
  apply (scrape_job_listings_missing_element
           "Acme" Stub.soup_params "https://acme.example/careers" "div" "job"
           "h2" "title" "span" "location" (Stub.serving 200 "broken")
           {| status_code := 200; body := "broken" |}
           ([Stub.Card (Some "Software Engineer") (Some "Remote, US")
                       (Some "https://acme.example/1") None]
            : list (@soup_tag Stub.soup))
           (Stub.Card None (Some "Remote") None (Some "https://acme.example/2")
            : @soup_tag Stub.soup)
           ([] : list (@soup_tag Stub.soup)) [Reference.engineer]).
  - repeat split; reflexivity.
  - reflexivity.
  - reflexivity.
  - repeat constructor; simpl; eauto.
  - left. reflexivity.
Defined.

Lemma scrape_job_listings_missing_link_witness :
  (scrape_job_listings "Acme" Stub.soup_params (Stub.serving 200 "unlinked")).1
  = Raise (KeyError "href").
Proof.
  apply (scrape_job_listings_missing_link
           "Acme" Stub.soup_params "https://acme.example/careers" "div" "job"
           "h2" "title" "span" "location" (Stub.serving 200 "unlinked")
           {| status_code := 200; body := "unlinked" |}
           ([Stub.Card (Some "Software Engineer") (Some "Remote, US")
                       (Some "https://acme.example/1") None]
            : list (@soup_tag Stub.soup))
           (Stub.Card (Some "Sales Rep") (Some "Remote") None None
            : @soup_tag Stub.soup)
           ([] : list (@soup_tag Stub.soup)) [Reference.engineer]).
  - repeat split; reflexivity.
  - reflexivity.
  - reflexivity.
  - repeat constructor; simpl; eauto.
  - simpl. eauto.
  - simpl. eauto.
  - reflexivity.
  - reflexivity.
Defined.

Lemma filter_jobs_more_criteria_witness :
  ∃ out out',
    filter_jobs (to_dict <$> [Reference.engineer; Reference.sales])
                ["engineer"] ["remote"] = Ok out ∧
    filter_jobs (to_dict <$> [Reference.engineer; Reference.sales])
                ["sales"; "engineer"; "sales"] ["remote"; "berlin"] = Ok out' ∧
    out `sublist_of` out'.
Proof.
  apply (filter_jobs_more_criteria [Reference.engineer; Reference.sales]).
  - intros k Hk. apply list_elem_of_singleton in Hk as ->.
    apply list_elem_of_In. simpl. tauto.
  - intros l Hl. apply list_elem_of_singleton in Hl as ->.
    apply list_elem_of_In. simpl. tauto.
Defined.

Lemma filter_jobs_blank_matches_all_witness :
  filter_jobs (to_dict <$> [Reference.engineer; Reference.sales])
              ["manager"; ""] [""]
  = Ok (to_dict <$> [Reference.engineer; Reference.sales]).
Proof.
  apply (filter_jobs_blank_matches_all [Reference.engineer; Reference.sales]).
  - reflexivity.
  - apply list_elem_of_In. simpl. tauto.
  - apply list_elem_of_In. simpl. tauto.
Defined.

Lemma filter_jobs_missing_title_witness :
  filter_jobs ((to_dict <$> [Reference.engineer])
               ++ PDict {[ "location" := PStr "Remote" ]} :: [to_dict Reference.sales])
              ["engineer"] ["remote"]
  = Raise (KeyError "title").
Proof.
  apply (filter_jobs_missing_title [Reference.engineer]).
  - done.
  - reflexivity.
Defined.

Lemma filter_jobs_skips_location_witness :
  filter_jobs (PDict {[ "title" := PStr "Sales Rep" ]} :: [to_dict Reference.engineer])
              ["engineer"] ["remote"]
  = filter_jobs [to_dict Reference.engineer] ["engineer"] ["remote"].
Proof.
  apply (filter_jobs_skips_location _ "Sales Rep").
  - reflexivity.
  - intros k Hk Hci. apply list_elem_of_singleton in Hk as ->.
    apply contains_spec in Hci. vm_compute in Hci. discriminate.
Defined.

Lemma process_api_response_missing_field_witness :
  process_api_response
    (PList ((PDict <$> [Reference.api_element Reference.engineer])
            ++ PDict {[ "name" := PStr "Sales Rep" ]}
            :: [PDict (Reference.api_element Reference.sales)]))
    "Acme" Reference.api_params
  = Raise (KeyError "where").
Proof.
  apply (process_api_response_missing_field
           "Acme" Reference.api_params "name" "where" "url"
           [Reference.api_element Reference.engineer]).
  - reflexivity.
  - reflexivity.
  - reflexivity.
  - repeat constructor; simpl; eauto.
  - right. left. split; [simpl; eauto|]. split; reflexivity.
Defined.

Lemma process_api_response_only_arrays_witness :
  to_dict <$> [Reference.engineer; Reference.sales] = [] ∨
  ∃ items,
    holds_array Reference.api_params (PDict Reference.api_payload) items ∧
    length (to_dict <$> [Reference.engineer; Reference.sales]) = length items ∧
    Forall (λ item, ∃ e, item = PDict e) items.
Proof.
  apply (process_api_response_only_arrays
           (PDict Reference.api_payload) "Acme" Reference.api_params).
  vm_compute. reflexivity.
Defined.

Lemma soup_step_collects_witness :
  (soup_step ["engineer"] ["remote"] ("Acme", Stub.soup_params)
             (Stub.serving 200 "careers")).1
  = Ok (to_dict <$> @filter _ _ _ (wanted ["engineer"] ["remote"])
                      (λ j, wanted_decidable ["engineer"] ["remote"] j)
                      [Reference.engineer; Reference.sales]).
Proof.
  apply (soup_step_collects
           "Acme" Stub.soup_params "https://acme.example/careers" "div" "job"
           "h2" "title" "span" "location" (Stub.serving 200 "careers")
           {| status_code := 200; body := "careers" |}).
  - repeat split; reflexivity.
  - reflexivity.
  - repeat constructor; simpl; eauto.
Defined.

Lemma api_step_collects_witness :
  (api_step ["engineer"] ["remote"] ("Acme", Stub.api) Stub.web).1
  = Ok (to_dict <$> @filter _ _ _ (wanted ["engineer"] ["remote"])
                      (λ j, wanted_decidable ["engineer"] ["remote"] j)
                      [Reference.engineer; Reference.sales]).
Proof.
  apply (api_step_collects
           "Acme" Stub.api "https://acme.example/api"
           {[ "Accept" := "application/json" ]} "name" "where" "url" Stub.web
           {| status_code := 200;
              body := Reference.dumps (PDict Reference.api_payload) |}
           (PDict Reference.api_payload)
           [Reference.api_element Reference.engineer;
            Reference.api_element Reference.sales]).
  - reflexivity.
  - reflexivity.
  - reflexivity.
  - reflexivity.
  - reflexivity.
  - reflexivity.
  - reflexivity.
  - vm_compute. reflexivity.
  - right. exists Reference.api_payload, "results". repeat split; reflexivity.
  - repeat constructor; simpl; reflexivity.
Defined.

Lemma main_failed_api_target_witness :
  let w := Stub.serving 404 "careers" in
  let w1 := (gather (soup_step ["engineer"] ["remote"])
                    [("Acme", Stub.soup_params)] [] w).2 in
  (main Stub.config w).1 = Raise TypeError ∧
  files (main Stub.config w).2 = files w ∧
  trace (main Stub.config w).2
  = trace w1 ++ [ EvHttpGet "https://acme.example/api"
                            {[ "Accept" := "application/json" ]};
                  EvPrint ("Failed to fetch data. HTTP Status Code: "
                           +:+ pretty 404%Z) ].
Proof.
  intros w w1.
  apply (main_failed_api_target
           Stub.config ["engineer"] ["remote"] [("Acme", Stub.soup_params)]
           "Acme" Stub.api [] "https://acme.example/api"
           {[ "Accept" := "application/json" ]}
           [to_dict Reference.engineer] w w1
           {| status_code := 404; body := "careers" |}).
  - reflexivity.
  - reflexivity.
  - reflexivity.
  - reflexivity.
  - vm_compute. reflexivity.
  - reflexivity.
  - reflexivity.
  - reflexivity.
  - simpl. lia.
Defined.


Lemma send_email_notification_session_witness :
  (send_email_notification (to_dict <$> [Reference.engineer; Reference.sales])
                           Reference.online).1 = Ok () ∧
  trace (send_email_notification
           (to_dict <$> [Reference.engineer; Reference.sales]) Reference.online).2
  = trace Reference.online
    ++ session "me@example.org" "you@example.org" "smtp.example.org" "587"
               "secret" [Reference.engineer; Reference.sales].
Proof.
  apply (send_email_notification_session
           "me@example.org" "you@example.org" "smtp.example.org" "587" "secret"
           [Reference.engineer; Reference.sales] Reference.online).
  - done.
  - repeat split; reflexivity.
  - reflexivity.
  - intros c. reflexivity.
Defined.

Lemma send_email_notification_missing_setting_witness :
  (∃ e, (send_email_notification [to_dict Reference.engineer]
                                 Reference.offline).1 = Raise e) ∧
  smtp_commands (trace (send_email_notification [to_dict Reference.engineer]
                                                Reference.offline).2)
  = smtp_commands (trace Reference.offline).
Proof.
  apply (send_email_notification_missing_setting
           "MAIL_HOST" (to_dict Reference.engineer) [] Reference.offline).
  - apply list_elem_of_In. simpl. tauto.
  - reflexivity.
Defined.

Lemma send_email_notification_refused_login_witness :
  (send_email_notification (to_dict <$> [Reference.engineer]) Stub.locked).1
  = Raise SMTPException ∧
  smtp_commands (trace (send_email_notification
                          (to_dict <$> [Reference.engineer]) Stub.locked).2)
  = smtp_commands (trace Stub.locked)
    ++ [ SmtpConnect "smtp.example.org" "587"; SmtpStartTls;
         SmtpLogin "me@example.org" "secret"; SmtpQuit ].
Proof.
  apply (send_email_notification_refused_login
           "me@example.org" "you@example.org" "smtp.example.org" "587" "secret"
           [Reference.engineer] Stub.locked).
  - done.
  - repeat split; reflexivity.
  - reflexivity.
  - reflexivity.
  - reflexivity.
  - reflexivity.
  - reflexivity.
Defined.

Lemma send_email_notification_missing_password_witness :
  (send_email_notification (to_dict <$> [Reference.engineer]) Stub.no_password).1
  = Raise (KeyError "MAIL_PASSWORD") ∧
  smtp_commands (trace (send_email_notification
                          (to_dict <$> [Reference.engineer]) Stub.no_password).2)
  = smtp_commands (trace Stub.no_password)
    ++ [SmtpConnect "smtp.example.org" "587"; SmtpStartTls; SmtpQuit].
Proof.
  apply (send_email_notification_missing_password
           "me@example.org" "you@example.org" "smtp.example.org" "587"
           [Reference.engineer] Stub.no_password).
  - done.
  - repeat split; reflexivity.
  - reflexivity.
  - intros c. reflexivity.
Defined.

Lemma settle_store_not_a_list_witness :
  (settle (PDict <$> [{[ "title" := PStr "Engineer" ]}]) Stub.overwritten).1
  = Raise TypeError ∧
  trace (settle (PDict <$> [{[ "title" := PStr "Engineer" ]}]) Stub.overwritten).2
  = trace Stub.overwritten ++ [EvRead "jobs.json"] ∧
  files (settle (PDict <$> [{[ "title" := PStr "Engineer" ]}]) Stub.overwritten).2
  = files Stub.overwritten.
Proof.
  apply (settle_store_not_a_list [{[ "title" := PStr "Engineer" ]}] (PDict ∅)
           Stub.overwritten).
  - vm_compute. reflexivity.
  - intros l. discriminate.
Defined.

Lemma settle_announces_new_jobs_witness :
  (settle (to_dict <$> [Reference.engineer; Reference.sales]) Stub.known).1
  = Ok () ∧
  trace (settle (to_dict <$> [Reference.engineer; Reference.sales]) Stub.known).2
  = trace Stub.known
    ++ EvRead "jobs.json"
    :: session "me@example.org" "you@example.org" "smtp.example.org" "587"
               "secret" [Reference.sales]
    ++ [EvWrite "jobs.json"
          (json_dumps (PList (to_dict <$> [Reference.engineer] ++ [Reference.sales])))].
Proof.
  apply (settle_announces_new_jobs
           "me@example.org" "you@example.org" "smtp.example.org" "587" "secret"
           [Reference.engineer; Reference.sales] [Reference.engineer] Stub.known).
  - vm_compute. reflexivity.
  - vm_compute. discriminate.
  - repeat split; reflexivity.
  - reflexivity.
  - intros c. reflexivity.
Defined.

End further_scenarios.
